(** * AcousticBEM: boundary data and derived acoustic quantities

    A shallow embedding of [Python/BoundaryData.py]: the containers
    [BoundaryCondition] and [BoundaryIncidence], the result objects
    [BoundarySolution] and [SampleSolution], and the derived quantities
    [pressure], [radiationRatio] and [mechanicalImpedance].

    Conventions of the embedding.
    - A Python call that may raise returns a [result]; the exceptions are
      the built-in ones the code can raise.
    - A finite [complex64] is a pair of rationals and finite arithmetic is
      exact: the rounding, overflow and underflow of float32 are not
      modelled.  A numpy division by zero does not raise: it warns and
      yields Inf or NaN, which is the value [NonFinite].  A statement that
      holds only without rounding, overflow and underflow says that it is
      one of exact arithmetic; the others hold of float32 as well.
    - An instance of a class of this file is its class name and its
      instance dictionary; [self.name] is a lookup in that dictionary.
    - The parent solver is outside this file: it is the record [Solver] of
      what this file reads from it. *)

From Stdlib Require Import QArith Qcanon ZArith Lia.
From stdpp Require Import gmap strings list.

#[local] Set Warnings "-register-all".

(** ** Exceptions and results *)

Inductive exn :=
| ValueError (msg : string)
| AttributeError (cls name : string)
| IndexError
| TypeError
| ZeroDivisionError
| MemoryError.

Inductive result (A : Type) :=
| Ok (a : A)
| Raise (e : exn).

Arguments Ok {A} a.
Arguments Raise {A} e.

(** Sequencing: the first exception ends the computation. *)
Definition bind {A B : Type} (m : result A) (k : A → result B) : result B :=
  match m with
  | Ok a => k a
  | Raise e => Raise e
  end.

Notation "'let*' x := m 'in' k" := (bind m (λ x, k))
  (at level 10, x name, m at level 100, k at level 200).

(** [for x in xs: s = body(s, x)], stopping at the first exception. *)
Fixpoint for_each {S A : Type} (body : S → A → result S) (xs : list A) (s : S)
  : result S :=
  match xs with
  | [] => Ok s
  | x :: xs' => let* s' := body s x in for_each body xs' s'
  end.

(** The error taxonomy of the specification, and the Python exception
    that stands for each kind in this code. *)
Inductive spec_error := ShapeMismatch | DegenerateDivision | InvalidSize.

Definition negative_dimensions : string := "negative dimensions are not allowed".

Definition error_kind (e : exn) : option spec_error :=
  match e with
  | ValueError msg =>
      if String.eqb msg negative_dimensions then Some InvalidSize else None
  | IndexError => Some ShapeMismatch
  | ZeroDivisionError => Some DegenerateDivision
  | AttributeError _ _ | TypeError | MemoryError => None
  end.

Definition fails_with {A : Type} (r : result A) (k : spec_error) : Prop :=
  ∃ e, r = Raise e ∧ error_kind e = Some k.

(** ** Numbers *)

(** The literal [0.5] of the source. *)
Definition half : Qc := Q2Qc (1 # 2).

(** [np.complex64], finite values, as exact rationals: sums, products and
    quotients of finite values are exact and finite, where float32 rounds,
    overflows to Inf and underflows to zero. *)
Record complex64 := Cx { Re : Qc; Im : Qc }.

Module Cplx.
#[local] Open Scope Qc_scope.

Definition zero : complex64 := Cx 0 0.
Definition one : complex64 := Cx 1 0.
Definition i : complex64 := Cx 0 1.
Definition of_real (x : Qc) : complex64 := Cx x 0.

Definition add (x y : complex64) : complex64 :=
  Cx (Re x + Re y) (Im x + Im y).

Definition mul (x y : complex64) : complex64 :=
  Cx (Re x * Re y - Im x * Im y) (Re x * Im y + Im x * Re y).

Definition conj (x : complex64) : complex64 := Cx (Re x) (- Im x).

(** [np.abs(x)**2]: the square of the modulus.  The modulus itself is a
    square root, which the rationals lack; its square is rational. *)
Definition abs_sq (x : complex64) : Qc := Re x * Re x + Im x * Im x.

Definition is_zero (x : complex64) : bool :=
  Qc_eq_bool (Re x) 0 && Qc_eq_bool (Im x) 0.

(** The quotient by a nonzero divisor. *)
Definition div (x y : complex64) : complex64 :=
  mul (mul x (conj y)) (of_real (/ abs_sq y)).
End Cplx.

(** A numpy scalar after a division: finite, or Inf/NaN. *)
Inductive np_scalar (A : Type) :=
| Finite (a : A)
| NonFinite.

Arguments Finite {A} a.
Arguments NonFinite {A}.

(** What an allocation finds: [room], the number of cells the system can
    still grant, and [cells], what the memory holds. *)
Record memory := { room : nat; cells : nat → complex64 }.

Module Np.
(** [x / y] on complex numpy scalars: a zero divisor gives a warning and
    a value with Inf or NaN parts, never an exception. *)
Definition divide (x y : complex64) : np_scalar complex64 :=
  if Cplx.is_zero y then NonFinite else Finite (Cplx.div x y).

(** [x / y] on real numpy scalars. *)
Definition divide_real (x y : Qc) : np_scalar Qc :=
  if Qc_eq_bool y (Q2Qc 0) then NonFinite else Finite (x / y)%Qc.

(** Inf and NaN absorb a sum. *)
Definition add (x y : np_scalar complex64) : np_scalar complex64 :=
  match x, y with
  | Finite a, Finite b => Finite (Cplx.add a b)
  | _, _ => NonFinite
  end.

(** The largest number of [complex64] cells whose size in bytes, 8 each,
    fits the signed 64-bit size of an array. *)
Definition max_cells : Z := 2 ^ 60 - 1.

Definition array_too_big : string :=
  "array is too big; `arr.size * arr.dtype.itemsize` is larger than the maximum possible size.".

(** [np.empty(size, dtype=np.complex64)]: [size] cells with whatever the
    memory [uninit] holds.  A negative size is refused, so is a size whose
    bytes do not fit an array, and a size the system cannot grant raises
    [MemoryError]. *)
Definition empty (uninit : memory) (size : Z) : result (list complex64) :=
  if (size <? 0)%Z then Raise (ValueError negative_dimensions)
  else if (max_cells <? size)%Z then Raise (ValueError array_too_big)
  else if (Z.of_nat (room uninit) <? size)%Z then Raise MemoryError
  else Ok (cells uninit <$> seq 0 (Z.to_nat size)).

(** [a[i]] for [i >= 0]. *)
Definition getitem {A : Type} (a : list A) (i : nat) : result A :=
  match a !! i with
  | Some x => Ok x
  | None => Raise IndexError
  end.
End Np.

(** A real accumulator of [radiationRatio]: a Python [float] until a numpy
    scalar is added to it, a numpy scalar from then on.  The two differ in
    division by zero. *)
Inductive real_number :=
| PyFloat (x : Qc)
| NpFloat (x : Qc).

Definition real_value (x : real_number) : Qc :=
  match x with PyFloat q | NpFloat q => q end.

(** [acc += y] with [y] a numpy scalar. *)
Definition iadd_np (acc : real_number) (y : Qc) : real_number :=
  NpFloat (real_value acc + y)%Qc.

(** [n * x] with [n] a Python [int]. *)
Definition int_mul (n : Qc) (x : real_number) : real_number :=
  match x with
  | PyFloat q => PyFloat (n * q)%Qc
  | NpFloat q => NpFloat (n * q)%Qc
  end.

(** [x / y]: Python's own division raises on a zero divisor; as soon as
    one operand is a numpy scalar the division is numpy's. *)
Definition true_divide (x y : real_number) : result (np_scalar Qc) :=
  match x, y with
  | PyFloat a, PyFloat b =>
      if Qc_eq_bool b (Q2Qc 0) then Raise ZeroDivisionError
      else Ok (Finite (a / b)%Qc)
  | _, _ => Ok (Np.divide_real (real_value x) (real_value y))
  end.

(** [zip(ps, as, vs)]: stops at the shortest argument. *)
Fixpoint zip3 {A B D : Type} (ps : list A) (bs : list B) (vs : list D)
  : list (A * B * D) :=
  match ps, bs, vs with
  | p :: ps', b :: bs', v :: vs' => (p, b, v) :: zip3 ps' bs' vs'
  | _, _, _ => []
  end.

(** ** AcousticProperties *)

Module AcousticProperties.
(** Modelled from the spec: [soundPressure] of the module
    AcousticProperties, which is not among the sources.  The spec gives
    it as the pure function [pressure(k, phi, c, density)] with
    [p = i * rho * c * k * phi]. *)
Definition soundPressure (k : Qc) (phi : complex64) (c density : Qc)
  : complex64 :=
  Cplx.mul (Cplx.mul Cplx.i (Cplx.of_real (density * c * k)%Qc)) phi.

(** Modelled from the spec: [AcousticIntensity] of the module
    AcousticProperties, which is not among the sources.  The spec gives
    it as [0.5 * Re(p * conj(v))]. *)
Definition AcousticIntensity (pressure velocity : complex64) : Qc :=
  (half * Re (Cplx.mul pressure (Cplx.conj velocity)))%Qc.
End AcousticProperties.

(** ** Objects *)

(** What this file reads from the parent solver. *)
Record Solver := {
  density : Qc;
  c : Qc;
  elementArea : list Qc;
}.

Inductive value :=
| VFloat (x : Qc)
| VArray (a : list complex64)
| VSolver (s : Solver)
| VInstance (cls : string) (attrs : gmap string value)
| VMethod (cls name : string).

(** The names each class of the file defines.  The names every object
    inherits from [object], all of the form [__x__], are not listed: the
    lookup of such a name is outside the model. *)
Definition class_namespace (cls : string) : list string :=
  if String.eqb cls "BoundaryCondition" then ["__init__"]
  else if String.eqb cls "BoundaryIncidence" then ["__init__"]
  else if String.eqb cls "BoundarySolution" then
    ["__init__"; "__repr__"; "__str__"; "solveInterior"; "solveExterior";
     "pressure"; "pressureDecibell"; "radiationRatio"; "mechanicalImpedance"]
  else if String.eqb cls "SampleSolution" then
    ["__init__"; "__repr__"; "__str__"]
  else [].

(** [self.name]: the instance dictionary first, then the class. *)
Definition getattr (self : value) (name : string) : result value :=
  match self with
  | VInstance cls attrs =>
      match attrs !! name with
      | Some v => Ok v
      | None =>
          if bool_decide (name ∈ class_namespace cls) then Ok (VMethod cls name)
          else Raise (AttributeError cls name)
      end
  | _ => Raise TypeError
  end.

(** [self.name = v] *)
Definition setattr (self : value) (name : string) (v : value) : result value :=
  match self with
  | VInstance cls attrs => Ok (VInstance cls (<[name := v]> attrs))
  | _ => Raise TypeError
  end.

(** A new instance, before [__init__] runs. *)
Definition new (cls : string) : value := VInstance cls ∅.

Definition as_float (v : value) : result Qc :=
  match v with VFloat x => Ok x | _ => Raise TypeError end.

Definition as_array (v : value) : result (list complex64) :=
  match v with VArray a => Ok a | _ => Raise TypeError end.

Definition as_solver (v : value) : result Solver :=
  match v with VSolver s => Ok s | _ => Raise TypeError end.

Definition attr_float (self : value) (name : string) : result Qc :=
  bind (getattr self name) as_float.

Definition attr_array (self : value) (name : string)
  : result (list complex64) :=
  bind (getattr self name) as_array.

Definition attr_solver (self : value) (name : string) : result Solver :=
  bind (getattr self name) as_solver.

(** The newline the report strings end their lines with. *)
Definition nl : string := String (Ascii.ascii_of_nat 10) "".

(** ** BoundaryData *)

Module BoundaryCondition.
(** [BoundaryCondition(size)]; [uninit n] is the memory the [n]-th
    allocation finds. *)
Definition __init__ (uninit : nat → memory) (size : Z)
  : result value :=
  let self := new "BoundaryCondition" in
  let* alpha := Np.empty (uninit 0) size in
  let* self := setattr self "alpha" (VArray alpha) in
  let* beta := Np.empty (uninit 1) size in
  let* self := setattr self "beta" (VArray beta) in
  let* f := Np.empty (uninit 2) size in
  let* self := setattr self "f" (VArray f) in
  Ok self.
End BoundaryCondition.

Module BoundaryIncidence.
Definition __init__ (uninit : nat → memory) (size : Z)
  : result value :=
  let self := new "BoundaryIncidence" in
  let* phi := Np.empty (uninit 0) size in
  let* self := setattr self "phi" (VArray phi) in
  let* v := Np.empty (uninit 1) size in
  let* self := setattr self "v" (VArray v) in
  Ok self.
End BoundaryIncidence.

Module BoundarySolution.
Import AcousticProperties.

Definition __init__ (parent boundaryCondition k aPhi aV : value)
  : result value :=
  let self := new "BoundarySolution" in
  let* self := setattr self "parent" parent in
  let* self := setattr self "boundaryCondidtion" boundaryCondition in
  let* self := setattr self "k" k in
  let* self := setattr self "aPhi" aPhi in
  let* self := setattr self "aV" aV in
  Ok self.

Section Repr.
(** Python's [repr] of an attribute value. *)
Variable repr : value → string.

Definition __repr__ (self : value) : result string :=
  let result := "BoundarySolution(" in
  let* parent := getattr self "parent" in
  let result := result +:+ "parent = " +:+ repr parent +:+ ", " in
  let* boundaryCondition := getattr self "boundaryCondition" in
  let result :=
    result +:+ "boundaryCondition = " +:+ repr boundaryCondition +:+ ", " in
  let* k := getattr self "k" in
  let result := result +:+ "k = " +:+ repr k +:+ ", " in
  let* aPhi := getattr self "aPhi" in
  let result := result +:+ "aPhi = " +:+ repr aPhi +:+ ", " in
  let* aV := getattr self "aV" in
  let result := result +:+ "aV = " +:+ repr aV +:+ ")" in
  Ok result.
End Repr.

(** [soundPressure] is handed the whole array and acts on each element. *)
Definition pressure (self : value) : result (list complex64) :=
  let* k := attr_float self "k" in
  let* aPhi := attr_array self "aPhi" in
  let* parent := attr_solver self "parent" in
  Ok ((λ phi, soundPressure k phi (c parent) (density parent)) <$> aPhi).

(** One turn of the loop of [radiationRatio]. *)
Definition radiationRatio_step (self : value)
    (acc : real_number * real_number) (i : nat)
  : result (real_number * real_number) :=
  let '(power, bpower) := acc in
  let* k := attr_float self "k" in
  let* aPhi := attr_array self "aPhi" in
  let* phi := Np.getitem aPhi i in
  let* parent := attr_solver self "parent" in
  let pressure := soundPressure k phi (c parent) (density parent) in
  let* aV := attr_array self "aV" in
  let* v := Np.getitem aV i in
  let power := iadd_np power (AcousticIntensity pressure v) in
  let bpower :=
    iadd_np bpower (density parent * c parent * Cplx.abs_sq v)%Qc in
  Ok (power, bpower).

Definition radiationRatio (self : value) : result (np_scalar Qc) :=
  let power := PyFloat (Q2Qc 0) in
  let bpower := PyFloat (Q2Qc 0) in
  let* aPhi := attr_array self "aPhi" in
  let* acc :=
    for_each (radiationRatio_step self) (seq 0 (length aPhi)) (power, bpower)
  in
  true_divide (int_mul 2%Qc acc.1) acc.2.

(** One turn of the loop of [mechanicalImpedance]: [Zm += p * a / v]. *)
Definition mechanicalImpedance_step (Zm : np_scalar complex64)
    (pav : complex64 * Qc * complex64) : np_scalar complex64 :=
  let '(p, a, v) := pav in
  Np.add Zm (Np.divide (Cplx.mul p (Cplx.of_real a)) v).

Definition mechanicalImpedance (self : value)
  : result (np_scalar complex64) :=
  let Zm := Finite Cplx.zero in
  let* ps := pressure self in
  let* parent := attr_solver self "parent" in
  let* aV := attr_array self "aV" in
  Ok (fold_left mechanicalImpedance_step (zip3 ps (elementArea parent) aV) Zm).
Section Str.
(** The number formats of [__str__]: [str_float x] is ["{}".format(x)],
    [sci x] is ["{: 1.4e}".format(x)] and [index n] is ["{:5d}".format(n)].
    [frequency k] is ["{}".format(wavenumberToFrequency(k))], with
    [wavenumberToFrequency] of AcousticProperties, which is not among the
    sources. *)
Variables (str_float sci frequency : Qc → string) (index : nat → string).

(** One row of the table of [__str__]. *)
Definition __str__row (i : nat) (phi pressure v : complex64) (intensity : Qc)
  : string :=
  index (i + 1) +:+ "  " +:+ sci (Re phi) +:+ "+ " +:+ sci (Im phi) +:+ "i   "
  +:+ sci (Re pressure) +:+ "+ " +:+ sci (Im pressure) +:+ "i   "
  +:+ sci (Re v) +:+ "+ " +:+ sci (Im v) +:+ "i    "
  +:+ sci intensity +:+ nl.

(** One turn of the loop of [__str__]. *)
Definition __str__step (self : value) (res : string) (i : nat)
  : result string :=
  let* k := attr_float self "k" in
  let* aPhi := attr_array self "aPhi" in
  let* phi := Np.getitem aPhi i in
  let* parent := attr_solver self "parent" in
  let pressure := soundPressure k phi (c parent) (density parent) in
  let* aV := attr_array self "aV" in
  let* v := Np.getitem aV i in
  let intensity := AcousticIntensity pressure v in
  Ok (res +:+ __str__row i phi pressure v intensity).

Definition __str__ (self : value) : result string :=
  let* parent := attr_solver self "parent" in
  let res :=
    "Density of medium:      " +:+ str_float (density parent) +:+ " kg/m^3"
    +:+ nl in
  let* parent := attr_solver self "parent" in
  let res :=
    res +:+ ("Speed of sound:         " +:+ str_float (c parent) +:+ " m/s"
             +:+ nl) in
  let* k := attr_float self "k" in
  let res :=
    res +:+ ("Wavenumber (Frequency): " +:+ str_float k +:+ " ("
             +:+ frequency k +:+ " Hz)" +:+ nl +:+ nl) in
  let res :=
    res +:+ ("index          Potential                   Pressure                    Velocity              Intensity"
             +:+ nl +:+ nl) in
  let* aPhi := attr_array self "aPhi" in
  for_each (__str__step self) (seq 0 (length aPhi)) res.
End Str.
End BoundarySolution.

Module SampleSolution.
Definition __init__ (boundarySolution aPhi : value) : result value :=
  let self := new "SampleSolution" in
  let* self := setattr self "boundarySolution" boundarySolution in
  let* self := setattr self "aPhi" aPhi in
  Ok self.

Section Repr.
Variable repr : value → string.

Definition __repr__ (self : value) : result string :=
  let result := "SampleSolution(" in
  let* parent := getattr self "parent" in
  let result := result +:+ "boundarySolution = " +:+ repr parent +:+ ", " in
  let* aPhi := getattr self "aPhi" in
  let result := result +:+ "aPhi = " +:+ repr aPhi +:+ ")" in
  Ok result.
End Repr.
Section Str.
(** The number formats of [__str__]: [sci x] is ["{: 1.4e}".format(x)] and
    [index n] is ["{:5d}".format(n)]; [magnitude p] is
    ["{: 1.4e}".format(SoundMagnitude(p))] and [phase p] is
    ["{:1.4f}".format(SignalPhase(p))], with [SoundMagnitude] and
    [SignalPhase] of AcousticProperties, which is not among the sources. *)
Variables (sci : Qc → string) (index : nat → string).
Variables (magnitude phase : complex64 → string).

(** One row of the table of [__str__]. *)
Definition __str__row (i : nat) (phi pressure : complex64) : string :=
  index (i + 1) +:+ "  " +:+ sci (Re phi) +:+ "+ " +:+ sci (Im phi) +:+ "i   "
  +:+ sci (Re pressure) +:+ "+ " +:+ sci (Im pressure) +:+ "i    "
  +:+ magnitude pressure +:+ " dB       " +:+ phase pressure +:+ nl.

(** One turn of the loop of [__str__]. *)
Definition __str__step (self : value) (res : string) (i : nat)
  : result string :=
  let* boundarySolution := getattr self "boundarySolution" in
  let* k := attr_float boundarySolution "k" in
  let* aPhi := attr_array self "aPhi" in
  let* phi := Np.getitem aPhi i in
  let* boundarySolution := getattr self "boundarySolution" in
  let* parent := attr_solver boundarySolution "parent" in
  let pressure :=
    AcousticProperties.soundPressure k phi (c parent) (density parent) in
  Ok (res +:+ __str__row i phi pressure).

Definition __str__ (self : value) : result string :=
  let result :=
    "index          Potential                    Pressure               Magnitude         Phase"
    +:+ nl +:+ nl in
  let* aPhi := attr_array self "aPhi" in
  for_each (__str__step self) (seq 0 (length aPhi)) result.
End Str.
End SampleSolution.

(** ** Calls the statements below are about *)

(** [BoundarySolution(parent, boundaryCondition, k, aPhi, aV)] on arguments
    of the types the solver passes. *)
Definition solution (parent : Solver) (boundaryCondition : value) (k : Qc)
    (aPhi aV : list complex64) : result value :=
  BoundarySolution.__init__ (VSolver parent) boundaryCondition (VFloat k)
    (VArray aPhi) (VArray aV).

(** [z * a] on an array. *)
Definition scale (z : complex64) (a : list complex64) : list complex64 :=
  Cplx.mul z <$> a.

(** A rational literal. *)
Definition lit (n : Z) (d : positive) : Qc := Q2Qc (n # d).

(** Memory that grants [n] cells to every allocation and holds zeros. *)
Definition zeroed (n : nat) : nat → memory :=
  λ _, {| room := n; cells := λ _, Cplx.zero |}.

(** The medium of the end-to-end scenario: density 1.21, speed of sound
    343, with the given element areas. *)
Definition air (areas : list Qc) : Solver :=
  {| density := lit 121 100; c := lit 343 1; elementArea := areas |}.

(** A boundary condition of [n] elements, all coefficients zero. *)
Definition condition (n : nat) : value :=
  VInstance "BoundaryCondition"
    (<["f" := VArray (replicate n Cplx.zero)]>
       (<["beta" := VArray (replicate n Cplx.zero)]>
          (<["alpha" := VArray (replicate n Cplx.zero)]> ∅))).

(** The sum of a list of rationals. *)
Definition qsum (xs : list Qc) : Qc := foldr Qcplus (Q2Qc 0) xs.

(** The terms [radiationRatio] adds to [power] and to [bpower], element by
    element. *)
Definition intensity_terms (parent : Solver) (k : Qc)
    (aPhi aV : list complex64) : list Qc :=
  zip_with
    (λ phi v,
       AcousticProperties.AcousticIntensity
         (AcousticProperties.soundPressure k phi (c parent) (density parent)) v)
    aPhi aV.

Definition blocked_terms (parent : Solver) (aPhi aV : list complex64)
  : list Qc :=
  zip_with (λ _ v, (density parent * c parent * Cplx.abs_sq v)%Qc) aPhi aV.

(** [acc += x] for each [x] of [xs]. *)
Definition accumulate (acc : real_number) (xs : list Qc) : real_number :=
  fold_left iadd_np xs acc.

(** The parent solver with other element areas. *)
Definition with_areas (parent : Solver) (areas : list Qc) : Solver :=
  {| density := density parent; c := c parent; elementArea := areas |}.

(** [SampleSolution(boundarySolution, aPhi)] on an array of potentials. *)
Definition sample (boundarySolution : value) (aPhi : list complex64)
  : result value :=
  SampleSolution.__init__ boundarySolution (VArray aPhi).

(** [t * Zm] for a real [t]; Inf and NaN stay what they are. *)
Definition np_scale (t : Qc) (Zm : np_scalar complex64)
  : np_scalar complex64 :=
  match Zm with
  | Finite z => Finite (Cplx.mul (Cplx.of_real t) z)
  | NonFinite => NonFinite
  end.

(** The rows [BoundarySolution.__str__] writes for the elements from
    position [j] on. *)
Fixpoint solution_rows (row : nat → complex64 → complex64 → string) (j : nat)
    (aPhi aV : list complex64) : string :=
  match aPhi, aV with
  | phi :: aPhi', v :: aV' => row j phi v +:+ solution_rows row (S j) aPhi' aV'
  | _, _ => ""
  end.

(** The rows [SampleSolution.__str__] writes for the points from position
    [j] on. *)
Fixpoint sample_rows (row : nat → complex64 → string) (j : nat)
    (aPhi : list complex64) : string :=
  match aPhi with
  | phi :: aPhi' => row j phi +:+ sample_rows row (S j) aPhi'
  | [] => ""
  end.

(** The four header lines of [BoundarySolution.__str__], as the code
    appends them. *)
Definition solution_header (str_float frequency : Qc → string)
    (parent : Solver) (k : Qc) : string :=
  ((("Density of medium:      " +:+ str_float (density parent) +:+ " kg/m^3"
     +:+ nl)
    +:+ ("Speed of sound:         " +:+ str_float (c parent) +:+ " m/s"
         +:+ nl))
   +:+ ("Wavenumber (Frequency): " +:+ str_float k +:+ " ("
        +:+ frequency k +:+ " Hz)" +:+ nl +:+ nl))
  +:+ ("index          Potential                   Pressure                    Velocity              Intensity"
       +:+ nl +:+ nl).

(** The row [BoundarySolution.__str__] writes for the element at position
    [j], of potential [phi] and velocity [v]. *)
Definition solution_row (sci : Qc → string) (index : nat → string)
    (parent : Solver) (k : Qc) (j : nat) (phi v : complex64) : string :=
  BoundarySolution.__str__row sci index j phi
    (AcousticProperties.soundPressure k phi (c parent) (density parent)) v
    (AcousticProperties.AcousticIntensity
       (AcousticProperties.soundPressure k phi (c parent) (density parent)) v).

(** The header line of [SampleSolution.__str__]. *)
Definition sample_header : string :=
  "index          Potential                    Pressure               Magnitude         Phase"
  +:+ nl +:+ nl.

(** The row [SampleSolution.__str__] writes for the point at position [j],
    of potential [phi]. *)
Definition sample_row (sci : Qc → string) (index : nat → string)
    (magnitude phase : complex64 → string) (parent : Solver) (k : Qc)
    (j : nat) (phi : complex64) : string :=
  SampleSolution.__str__row sci index magnitude phase j phi
    (AcousticProperties.soundPressure k phi (c parent) (density parent)).

(** The sum of a list of complex numbers. *)
Definition csum (zs : list complex64) : complex64 :=
  foldr Cplx.add Cplx.zero zs.

(** The terms [p * a / v] of [mechanicalImpedance], element by element, as
    finite quotients. *)
Definition impedance_terms (parent : Solver) (k : Qc)
    (aPhi aV : list complex64) : list complex64 :=
  (λ e, Cplx.div (Cplx.mul e.1.1 (Cplx.of_real e.1.2)) e.2)
    <$> zip3 ((λ phi,
                 AcousticProperties.soundPressure k phi (c parent)
                   (density parent)) <$> aPhi)
          (elementArea parent) aV.

(** * Properties *)

(** ** Decidable equality, for closed computations *)

#[global] Instance complex64_eq_decision : EqDecision complex64.
Proof. solve_decision. Defined.
#[global] Instance np_scalar_eq_decision {A} `{EqDecision A} :
  EqDecision (np_scalar A).
Proof. solve_decision. Defined.
#[global] Instance exn_eq_decision : EqDecision exn.
Proof. solve_decision. Defined.
#[global] Instance result_eq_decision {A} `{EqDecision A} :
  EqDecision (result A).
Proof. solve_decision. Defined.

(** Closes a closed, decidable goal by evaluation. *)
Ltac by_evaluation := apply (bool_decide_unpack _); vm_compute; exact I.

(** ** Complex arithmetic *)

Section ComplexFacts.
#[local] Open Scope Qc_scope.

Lemma complex64_eq (x y : complex64) : Re x = Re y → Im x = Im y → x = y.
Proof. destruct x, y; simpl; intros -> ->; reflexivity. Qed.

Lemma Qc_eq_bool_true (x y : Qc) : Qc_eq_bool x y = true ↔ x = y.
Proof.
  unfold Qc_eq_bool. destruct (Qcanon.Qc_eq_dec x y); split; intros H; done.
Qed.

Lemma is_zero_spec (x : complex64) : Cplx.is_zero x = true ↔ x = Cplx.zero.
Proof.
  unfold Cplx.is_zero. rewrite andb_true_iff, !Qc_eq_bool_true.
  destruct x as [a b]; simpl. split.
  - intros [-> ->]. reflexivity.
  - intros [= -> ->]. auto.
Qed.

Lemma is_zero_false (x : complex64) : x ≠ Cplx.zero → Cplx.is_zero x = false.
Proof.
  intros Hx. destruct (Cplx.is_zero x) eqn:E; [|reflexivity].
  apply is_zero_spec in E. contradiction.
Qed.

Lemma mul_assoc (x y z : complex64) :
  Cplx.mul x (Cplx.mul y z) = Cplx.mul (Cplx.mul x y) z.
Proof. apply complex64_eq; simpl; ring. Qed.

Lemma mul_comm (x y : complex64) : Cplx.mul x y = Cplx.mul y x.
Proof. apply complex64_eq; simpl; ring. Qed.

Lemma mul_one_r (x : complex64) : Cplx.mul x (Cplx.of_real 1) = x.
Proof. apply complex64_eq; simpl; ring. Qed.

Lemma mul_zero_r (x : complex64) : Cplx.mul x Cplx.zero = Cplx.zero.
Proof. apply complex64_eq; simpl; ring. Qed.

Lemma add_zero_l (x : complex64) : Cplx.add Cplx.zero x = x.
Proof. apply complex64_eq; simpl; ring. Qed.

Lemma of_real_mul (x y : Qc) :
  Cplx.of_real (x * y) = Cplx.mul (Cplx.of_real x) (Cplx.of_real y).
Proof. apply complex64_eq; simpl; ring. Qed.
End ComplexFacts.

(** ** Construction *)

Lemma empty_granted (uninit : memory) (N : Z) :
  (0 ≤ N ≤ Np.max_cells)%Z → (N ≤ Z.of_nat (room uninit))%Z →
  Np.empty uninit N = Ok (cells uninit <$> seq 0 (Z.to_nat N)).
Proof.
  intros HN Hroom. unfold Np.empty.
  destruct (Z.ltb_spec N 0); [lia|].
  destruct (Z.ltb_spec Np.max_cells N); [lia|].
  destruct (Z.ltb_spec (Z.of_nat (room uninit)) N); [lia|reflexivity].
Qed.

Lemma empty_negative (uninit : memory) (N : Z) :
  (N < 0)%Z → Np.empty uninit N = Raise (ValueError negative_dimensions).
Proof.
  intros HN. unfold Np.empty.
  destruct (Z.ltb_spec N 0); [reflexivity | lia].
Qed.

Lemma empty_zero (uninit : memory) : Np.empty uninit 0 = Ok [].
Proof.
  unfold Np.empty. cbn [Z.ltb Z.compare].
  destruct (Z.ltb_spec Np.max_cells 0) as [H|_]; [discriminate H|].
  destruct (Z.ltb_spec (Z.of_nat (room uninit)) 0); [lia|reflexivity].
Qed.

Lemma length_empty (uninit : memory) (N : Z) :
  (0 ≤ N)%Z → Z.of_nat (length (cells uninit <$> seq 0 (Z.to_nat N))) = N.
Proof. intros HN. rewrite length_fmap, length_seq. lia. Qed.

(** C9: for a non-negative size [N] that is valid, one whose bytes fit an
    array and that the system grants to each allocation,
    [BoundaryCondition(N)] holds arrays [alpha], [beta] and [f] of length
    exactly [N], and [BoundaryIncidence(N)] holds arrays [phi] and [v] of
    length exactly [N]. *)
Theorem container_lengths (uninit : nat → memory) (N : Z) :
  (0 ≤ N ≤ Np.max_cells)%Z →
  (∀ n, N ≤ Z.of_nat (room (uninit n)))%Z →
  ∃ alpha beta f phi v,
    bind (BoundaryCondition.__init__ uninit N)
         (λ self, attr_array self "alpha") = Ok alpha ∧
    bind (BoundaryCondition.__init__ uninit N)
         (λ self, attr_array self "beta") = Ok beta ∧
    bind (BoundaryCondition.__init__ uninit N)
         (λ self, attr_array self "f") = Ok f ∧
    bind (BoundaryIncidence.__init__ uninit N)
         (λ self, attr_array self "phi") = Ok phi ∧
    bind (BoundaryIncidence.__init__ uninit N)
         (λ self, attr_array self "v") = Ok v ∧
    Z.of_nat (length alpha) = N ∧ Z.of_nat (length beta) = N ∧
    Z.of_nat (length f) = N ∧
    Z.of_nat (length phi) = N ∧ Z.of_nat (length v) = N.
Proof.
  intros HN Hroom.
  exists (cells (uninit 0%nat) <$> seq 0 (Z.to_nat N)),
         (cells (uninit 1%nat) <$> seq 0 (Z.to_nat N)),
         (cells (uninit 2%nat) <$> seq 0 (Z.to_nat N)),
         (cells (uninit 0%nat) <$> seq 0 (Z.to_nat N)),
         (cells (uninit 1%nat) <$> seq 0 (Z.to_nat N)).
  unfold BoundaryCondition.__init__, BoundaryIncidence.__init__.
  rewrite !empty_granted by (try apply Hroom; assumption).
  repeat split; try reflexivity; apply length_empty; lia.
Qed.

Lemma container_lengths_witness :
  ∃ alpha beta f phi v,
    bind (BoundaryCondition.__init__ (zeroed 8) 3)
         (λ self, attr_array self "alpha") = Ok alpha ∧
    bind (BoundaryCondition.__init__ (zeroed 8) 3)
         (λ self, attr_array self "beta") = Ok beta ∧
    bind (BoundaryCondition.__init__ (zeroed 8) 3)
         (λ self, attr_array self "f") = Ok f ∧
    bind (BoundaryIncidence.__init__ (zeroed 8) 3)
         (λ self, attr_array self "phi") = Ok phi ∧
    bind (BoundaryIncidence.__init__ (zeroed 8) 3)
         (λ self, attr_array self "v") = Ok v ∧
    Z.of_nat (length alpha) = 3%Z ∧ Z.of_nat (length beta) = 3%Z ∧
    Z.of_nat (length f) = 3%Z ∧
    Z.of_nat (length phi) = 3%Z ∧ Z.of_nat (length v) = 3%Z.
Proof.
  apply (container_lengths (zeroed 8) 3).
  - vm_compute. split; discriminate.
  - intros n. simpl. lia.
Defined.

(** C5: constructing [BoundaryCondition] or [BoundaryIncidence] with a
    negative size fails with the error of kind [InvalidSize] (numpy
    refuses negative dimensions); with size [0] the construction succeeds
    and every array is empty. *)
Theorem negative_size_rejected (uninit : nat → memory) :
  (∀ N : Z, (N < 0)%Z →
     fails_with (BoundaryCondition.__init__ uninit N) InvalidSize ∧
     fails_with (BoundaryIncidence.__init__ uninit N) InvalidSize) ∧
  (∃ bc bi,
     BoundaryCondition.__init__ uninit 0 = Ok bc ∧
     BoundaryIncidence.__init__ uninit 0 = Ok bi ∧
     attr_array bc "alpha" = Ok [] ∧ attr_array bc "beta" = Ok [] ∧
     attr_array bc "f" = Ok [] ∧
     attr_array bi "phi" = Ok [] ∧ attr_array bi "v" = Ok []).
Proof.
  split.
  - intros N HN.
    unfold BoundaryCondition.__init__, BoundaryIncidence.__init__.
    rewrite !empty_negative by assumption.
    split; exists (ValueError negative_dimensions); split; reflexivity.
  - unfold BoundaryCondition.__init__, BoundaryIncidence.__init__.
    rewrite !empty_zero.
    eexists _, _. repeat split; reflexivity.
Qed.

Lemma negative_size_rejected_witness :
  fails_with (BoundaryCondition.__init__ (zeroed 0) (-1)) InvalidSize ∧
  fails_with (BoundaryIncidence.__init__ (zeroed 0) (-1)) InvalidSize.
Proof.
  apply (proj1 (negative_size_rejected (zeroed 0)) (-1)%Z). lia.
Defined.

(** C10: [repr] of any [BoundarySolution] raises [AttributeError]: the
    constructor stores the boundary condition under [boundaryCondidtion]
    and [__repr__] reads [boundaryCondition]; [repr] of any
    [SampleSolution] raises [AttributeError] on the attribute [parent],
    which its constructor never sets. *)
Theorem repr_raises_AttributeError (repr : value → string) :
  (∀ parent boundaryCondition k aPhi aV : value,
     bind (BoundarySolution.__init__ parent boundaryCondition k aPhi aV)
          (λ self, getattr self "boundaryCondidtion") = Ok boundaryCondition ∧
     bind (BoundarySolution.__init__ parent boundaryCondition k aPhi aV)
          (λ self, getattr self "boundaryCondition")
     = Raise (AttributeError "BoundarySolution" "boundaryCondition") ∧
     bind (BoundarySolution.__init__ parent boundaryCondition k aPhi aV)
          (BoundarySolution.__repr__ repr)
     = Raise (AttributeError "BoundarySolution" "boundaryCondition")) ∧
  (∀ boundarySolution aPhi : value,
     bind (SampleSolution.__init__ boundarySolution aPhi)
          (λ self, getattr self "boundarySolution") = Ok boundarySolution ∧
     bind (SampleSolution.__init__ boundarySolution aPhi)
          (SampleSolution.__repr__ repr)
     = Raise (AttributeError "SampleSolution" "parent")).
Proof.
  split.
  - intros parent boundaryCondition k aPhi aV.
    unfold BoundarySolution.__init__, BoundarySolution.__repr__.
    repeat split; reflexivity.
  - intros boundarySolution aPhi.
    unfold SampleSolution.__init__, SampleSolution.__repr__.
    split; reflexivity.
Qed.

(** ** Attributes of a constructed solution *)

Lemma solution_attributes (s : Solver) (bc : value) (k : Qc)
    (aPhi aV : list complex64) :
  ∃ self, solution s bc k aPhi aV = Ok self ∧
    attr_solver self "parent" = Ok s ∧ attr_float self "k" = Ok k ∧
    attr_array self "aPhi" = Ok aPhi ∧ attr_array self "aV" = Ok aV.
Proof. eexists. repeat split; reflexivity. Qed.

Lemma pressure_solution (s : Solver) (bc : value) (k : Qc)
    (aPhi aV : list complex64) :
  bind (solution s bc k aPhi aV) BoundarySolution.pressure
  = Ok ((λ phi, AcousticProperties.soundPressure k phi (c s) (density s))
          <$> aPhi).
Proof. reflexivity. Qed.

Lemma mechanicalImpedance_solution (s : Solver) (bc : value) (k : Qc)
    (aPhi aV : list complex64) :
  bind (solution s bc k aPhi aV) BoundarySolution.mechanicalImpedance
  = Ok (fold_left BoundarySolution.mechanicalImpedance_step
          (zip3 ((λ phi, AcousticProperties.soundPressure k phi (c s) (density s))
                   <$> aPhi)
                (elementArea s) aV)
          (Finite Cplx.zero)).
Proof. reflexivity. Qed.

(** ** pressure *)






(** ** mechanicalImpedance *)

Section Impedance.
Import BoundarySolution.

Lemma zip3_lookup {A B D : Type} (ps : list A) (bs : list B) (vs : list D)
    (i : nat) (p : A) (b : B) (v : D) :
  ps !! i = Some p → bs !! i = Some b → vs !! i = Some v →
  zip3 ps bs vs !! i = Some (p, b, v).
Proof.
  revert bs vs i.
  induction ps as [|p' ps IH]; intros [|b' bs] [|v' vs] [|i]; simpl;
    try discriminate.
  - intros [= ->] [= ->] [= ->]. reflexivity.
  - apply IH.
Qed.

Lemma zip3_take {A B D : Type} (n : nat) (ps : list A) (bs : list B)
    (vs : list D) :
  (length ps `min` (length bs `min` length vs) ≤ n)%nat →
  zip3 (take n ps) (take n bs) (take n vs) = zip3 ps bs vs.
Proof.
  revert n bs vs.
  induction ps as [|p ps IH]; intros n bs vs Hn.
  - destruct n; reflexivity.
  - destruct bs as [|b bs]; [destruct n; reflexivity|].
    destruct vs as [|v vs]; [destruct n; reflexivity|].
    destruct n as [|n]; simpl in Hn; [lia|].
    simpl. f_equal. apply IH. lia.
Qed.

Lemma divide_zero (x : complex64) : Np.divide x Cplx.zero = NonFinite.
Proof. reflexivity. Qed.

Lemma divide_nonzero (x y : complex64) :
  y ≠ Cplx.zero → Np.divide x y = Finite (Cplx.div x y).
Proof. intros Hy. unfold Np.divide. rewrite is_zero_false; done. Qed.

Lemma add_NonFinite_r (Zm : np_scalar complex64) : Np.add Zm NonFinite = NonFinite.
Proof. destruct Zm; reflexivity. Qed.

Lemma step_zero_velocity (Zm : np_scalar complex64) (p : complex64) (a : Qc) :
  mechanicalImpedance_step Zm (p, a, Cplx.zero) = NonFinite.
Proof.
  unfold mechanicalImpedance_step. rewrite divide_zero. apply add_NonFinite_r.
Qed.

Lemma fold_NonFinite (l : list (complex64 * Qc * complex64)) :
  fold_left mechanicalImpedance_step l NonFinite = NonFinite.
Proof.
  induction l as [|[[p a] v] l IH]; [reflexivity|]. simpl. exact IH.
Qed.

Lemma fold_zero_velocity (l : list (complex64 * Qc * complex64))
    (Zm : np_scalar complex64) (i : nat) (p : complex64) (a : Qc) :
  l !! i = Some (p, a, Cplx.zero) →
  fold_left mechanicalImpedance_step l Zm = NonFinite.
Proof.
  revert Zm i. induction l as [|pav l IH]; intros Zm [|i] Hi;
    try discriminate.
  - injection Hi as ->. cbn [fold_left].
    rewrite step_zero_velocity. apply fold_NonFinite.
  - cbn [fold_left]. apply (IH _ i). exact Hi.
Qed.
End Impedance.

(** C1, as the code has it: when some element [i], within the range that
    [aPhi], the element areas and [aV] all cover, has [aV[i] == 0],
    [mechanicalImpedance()] raises no error; it returns, and the value it
    returns is not finite (Inf or NaN). *)
Theorem mechanicalImpedance_zero_velocity (s : Solver) (bc : value) (k : Qc)
    (aPhi aV : list complex64) (i : nat) :
  (i < length aPhi)%nat → (i < length (elementArea s))%nat →
  aV !! i = Some Cplx.zero →
  bind (solution s bc k aPhi aV) BoundarySolution.mechanicalImpedance
  = Ok NonFinite.
Proof.
  intros HaPhi Harea HaV.
  apply lookup_lt_is_Some_2 in HaPhi as [phi Hphi].
  apply lookup_lt_is_Some_2 in Harea as [a Ha].
  rewrite mechanicalImpedance_solution. f_equal.
  eapply (fold_zero_velocity _ _ i). apply zip3_lookup; [|exact Ha|exact HaV].
  rewrite list_lookup_fmap, Hphi. reflexivity.
Qed.

Lemma mechanicalImpedance_zero_velocity_witness :
  bind (solution (air [1%Qc; 1%Qc]) (condition 2) 1%Qc
          [Cplx.one; Cplx.i] [Cplx.one; Cplx.zero])
       BoundarySolution.mechanicalImpedance
  = Ok NonFinite.
Proof.
  apply (mechanicalImpedance_zero_velocity _ _ _ _ _ 1%nat);
    [simpl; lia | simpl; lia | reflexivity].
Defined.

(** C1 fails as stated: with one element of velocity zero,
    [mechanicalImpedance()] returns a non-finite value and raises
    nothing. *)
Lemma mechanicalImpedance_zero_velocity_returns :
  bind (solution (air [1%Qc]) (condition 1) 1%Qc [Cplx.one] [Cplx.zero])
       BoundarySolution.mechanicalImpedance
  = Ok NonFinite ∧
  ¬ fails_with
      (bind (solution (air [1%Qc]) (condition 1) 1%Qc [Cplx.one] [Cplx.zero])
            BoundarySolution.mechanicalImpedance)
      DegenerateDivision.
Proof.
  split; [reflexivity|]. intros [e [He _]]. discriminate He.
Qed.

(** C2, as the code has it: the constructor of [BoundarySolution] checks
    no length, and [mechanicalImpedance()] raises no error on arrays of
    different lengths: it uses the first [n] elements of the pressures,
    the areas and [aV], with [n] the least of the three lengths, and
    ignores the rest. *)
Theorem mechanicalImpedance_truncates (s : Solver) (bc : value) (k : Qc)
    (aPhi aV : list complex64) :
  let n := (length aPhi `min` (length (elementArea s) `min` length aV))%nat in
  (∃ self, solution s bc k aPhi aV = Ok self) ∧
  (∃ Zm, bind (solution s bc k aPhi aV) BoundarySolution.mechanicalImpedance
         = Ok Zm) ∧
  bind (solution s bc k aPhi aV) BoundarySolution.mechanicalImpedance
  = bind (solution (with_areas s (take n (elementArea s))) bc k
            (take n aPhi) (take n aV))
         BoundarySolution.mechanicalImpedance.
Proof.
  intros n. split; [eexists; reflexivity|].
  split; [eexists; apply mechanicalImpedance_solution|].
  rewrite !mechanicalImpedance_solution. f_equal. simpl.
  rewrite fmap_take, zip3_take; [reflexivity|].
  rewrite length_fmap. subst n. lia.
Qed.

(** C2 fails as stated: with one potential and two velocities the
    construction succeeds and [mechanicalImpedance()] returns the value of
    the first element alone, dropping the second velocity without an
    error. *)
Lemma mechanicalImpedance_drops_trailing :
  length [Cplx.one] ≠ length [Cplx.one; Cplx.i] ∧
  bind (solution (air [1%Qc]) (condition 1) 1%Qc [Cplx.one]
          [Cplx.one; Cplx.i])
       BoundarySolution.mechanicalImpedance
  = Ok (Finite (Cx 0%Qc (lit 41503 100))) ∧
  bind (solution (air [1%Qc]) (condition 1) 1%Qc [Cplx.one] [Cplx.one])
       BoundarySolution.mechanicalImpedance
  = Ok (Finite (Cx 0%Qc (lit 41503 100))) ∧
  ¬ fails_with
      (solution (air [1%Qc]) (condition 1) 1%Qc [Cplx.one] [Cplx.one; Cplx.i])
      ShapeMismatch ∧
  ¬ fails_with
      (bind (solution (air [1%Qc]) (condition 1) 1%Qc [Cplx.one]
               [Cplx.one; Cplx.i])
            BoundarySolution.mechanicalImpedance)
      ShapeMismatch.
Proof.
  split; [simpl; lia|]. split; [by_evaluation|]. split; [by_evaluation|].
  split; intros [e [He _]]; discriminate He.
Qed.

(** X16: in exact arithmetic, for a single element of unit area and
    nonzero velocity, [mechanicalImpedance()] is exactly
    [pressure()[0] / aV[0]], a finite value.  (In float32 a large
    potential makes the pressure overflow, and the two sides are then NaN
    and not equal.) *)
Theorem mechanicalImpedance_single_element (s : Solver) (bc : value) (k : Qc)
    (phi v : complex64) :
  elementArea s = [1%Qc] → v ≠ Cplx.zero →
  ∃ p,
    bind (solution s bc k [phi] [v]) BoundarySolution.pressure = Ok [p] ∧
    bind (solution s bc k [phi] [v]) BoundarySolution.mechanicalImpedance
    = Ok (Np.divide p v) ∧
    Np.divide p v = Finite (Cplx.div p v).
Proof.
  intros Harea Hv.
  exists (AcousticProperties.soundPressure k phi (c s) (density s)).
  split; [apply pressure_solution|].
  split; [|apply divide_nonzero; exact Hv].
  rewrite mechanicalImpedance_solution, Harea. f_equal. simpl.
  rewrite mul_one_r, divide_nonzero by exact Hv. simpl.
  rewrite add_zero_l. reflexivity.
Qed.

Lemma mechanicalImpedance_single_element_witness :
  ∃ p,
    bind (solution (air [1%Qc]) (condition 1) 1%Qc [Cplx.one] [Cplx.i])
         BoundarySolution.pressure = Ok [p] ∧
    bind (solution (air [1%Qc]) (condition 1) 1%Qc [Cplx.one] [Cplx.i])
         BoundarySolution.mechanicalImpedance
    = Ok (Np.divide p Cplx.i) ∧
    Np.divide p Cplx.i = Finite (Cplx.div p Cplx.i).
Proof.
  apply mechanicalImpedance_single_element; [reflexivity|].
  intros H. apply (f_equal Im) in H. vm_compute in H. discriminate H.
Defined.

(** ** radiationRatio *)

Section Accumulate.
#[local] Open Scope Qc_scope.

Lemma accumulate_NpFloat (x : Qc) (xs : list Qc) :
  accumulate (NpFloat x) xs = NpFloat (x + qsum xs).
Proof.
  revert x. induction xs as [|y xs IH]; intros x.
  - change (NpFloat x = NpFloat (x + 0)). f_equal. ring.
  - change (accumulate (NpFloat (x + y)) xs = NpFloat (x + (y + qsum xs))).
    rewrite IH. f_equal. ring.
Qed.

Lemma accumulate_cons (acc : real_number) (x : Qc) (xs : list Qc) :
  accumulate acc (x :: xs) = NpFloat (real_value acc + qsum (x :: xs)).
Proof.
  change (accumulate (NpFloat (real_value acc + x)) xs
          = NpFloat (real_value acc + (x + qsum xs))).
  rewrite accumulate_NpFloat. f_equal. ring.
Qed.

Lemma qsum_scale (z : Qc) (xs : list Qc) :
  qsum (Qcmult z <$> xs) = z * qsum xs.
Proof.
  induction xs as [|x xs IH].
  - change (0 = z * 0). ring.
  - change (z * x + qsum (Qcmult z <$> xs) = z * (x + qsum xs)).
    rewrite IH. ring.
Qed.

Lemma divide_real_nonzero (x y : Qc) :
  y ≠ 0 → Np.divide_real x y = Finite (x / y).
Proof.
  intros Hy. unfold Np.divide_real.
  destruct (Qc_eq_bool y 0) eqn:E; [|reflexivity].
  apply Qc_eq_bool_true in E. contradiction.
Qed.

Lemma square_nonneg (a : Qc) : 0 ≤ a * a.
Proof.
  destruct (Qclt_le_dec a 0) as [Ha|Ha].
  - replace (a * a) with (- a * - a) by ring.
    assert (0 ≤ - a).
    { replace 0 with (- 0) by ring.
      apply Qcopp_le_compat, Qclt_le_weak, Ha. }
    apply Qcmult_nonneg_nonneg; assumption.
  - apply Qcmult_nonneg_nonneg; assumption.
Qed.

Lemma square_pos (a : Qc) : a ≠ 0 → 0 < a * a.
Proof.
  intros Ha. destruct (Qcle_lt_or_eq _ _ (square_nonneg a)) as [H|H];
    [exact H|].
  symmetry in H. apply Qcmult_integral in H. tauto.
Qed.

Lemma abs_sq_nonneg (v : complex64) : 0 ≤ Cplx.abs_sq v.
Proof. apply Qcplus_nonneg_nonneg; apply square_nonneg. Qed.

Lemma abs_sq_pos (v : complex64) : v ≠ Cplx.zero → 0 < Cplx.abs_sq v.
Proof.
  intros Hv. unfold Cplx.abs_sq.
  destruct (decide (Re v = 0)) as [Hre|Hre].
  - apply Qcplus_nonneg_pos; [apply square_nonneg|].
    apply square_pos. intros Him. apply Hv.
    apply complex64_eq; assumption.
  - apply Qcplus_pos_nonneg; [|apply square_nonneg].
    apply square_pos, Hre.
Qed.
End Accumulate.

Section RadiationLoop.
Import BoundarySolution AcousticProperties.
#[local] Open Scope Qc_scope.

Variables (s : Solver) (k : Qc) (aPhi aV : list complex64) (self : value).
Hypothesis Hparent : attr_solver self "parent" = Ok s.
Hypothesis Hk : attr_float self "k" = Ok k.
Hypothesis HaPhi : attr_array self "aPhi" = Ok aPhi.
Hypothesis HaV : attr_array self "aV" = Ok aV.

Lemma radiationRatio_step_typed (power bpower : real_number) (i : nat)
    (phi v : complex64) :
  aPhi !! i = Some phi → aV !! i = Some v →
  radiationRatio_step self (power, bpower) i
  = Ok (iadd_np power
          (AcousticIntensity (soundPressure k phi (c s) (density s)) v),
        iadd_np bpower (density s * c s * Cplx.abs_sq v)).
Proof.
  intros Hphi Hv. unfold radiationRatio_step.
  rewrite Hk; cbn [bind]. rewrite HaPhi; cbn [bind].
  unfold Np.getitem. rewrite Hphi; cbn [bind].
  rewrite Hparent; cbn [bind]. rewrite HaV; cbn [bind].
  rewrite Hv; cbn [bind]. reflexivity.
Qed.

Lemma radiationRatio_loop (phis vs : list complex64) (j : nat)
    (power bpower : real_number) :
  drop j aPhi = phis → drop j aV = vs → (length phis ≤ length vs)%nat →
  for_each (radiationRatio_step self) (seq j (length phis)) (power, bpower)
  = Ok (accumulate power (intensity_terms s k phis vs),
        accumulate bpower (blocked_terms s phis vs)).
Proof.
  revert vs j power bpower.
  induction phis as [|phi phis IH]; intros vs j power bpower Hphis Hvs Hlen.
  - reflexivity.
  - destruct vs as [|v vs]; [simpl in Hlen; lia|].
    assert (Hphi : aPhi !! j = Some phi).
    { rewrite <- (Nat.add_0_r j), <- lookup_drop, Hphis. reflexivity. }
    assert (Hv : aV !! j = Some v).
    { rewrite <- (Nat.add_0_r j), <- lookup_drop, Hvs. reflexivity. }
    rewrite (drop_S _ _ _ Hphi) in Hphis. injection Hphis as Hphis.
    rewrite (drop_S _ _ _ Hv) in Hvs. injection Hvs as Hvs.
    cbn [length seq for_each].
    rewrite (radiationRatio_step_typed _ _ _ _ _ Hphi Hv). cbn [bind].
    rewrite (IH vs (S j)); [reflexivity|assumption|assumption|].
    simpl in Hlen. lia.
Qed.

Lemma radiationRatio_typed :
  (length aPhi ≤ length aV)%nat →
  radiationRatio self
  = true_divide
      (int_mul 2 (accumulate (PyFloat 0) (intensity_terms s k aPhi aV)))
      (accumulate (PyFloat 0) (blocked_terms s aPhi aV)).
Proof.
  intros Hlen. unfold radiationRatio. rewrite HaPhi; cbn [bind].
  rewrite (radiationRatio_loop aPhi aV 0); [reflexivity|reflexivity|reflexivity|exact Hlen].
Qed.
Lemma radiationRatio_step_short (power bpower : real_number) (i : nat)
    (phi : complex64) :
  aPhi !! i = Some phi → aV !! i = None →
  radiationRatio_step self (power, bpower) i = Raise IndexError.
Proof.
  intros Hphi Hv. unfold radiationRatio_step.
  rewrite Hk; cbn [bind]. rewrite HaPhi; cbn [bind].
  unfold Np.getitem. rewrite Hphi; cbn [bind].
  rewrite Hparent; cbn [bind]. rewrite HaV; cbn [bind].
  rewrite Hv. reflexivity.
Qed.

Lemma radiationRatio_loop_short (phis vs : list complex64) (j : nat)
    (power bpower : real_number) :
  drop j aPhi = phis → drop j aV = vs → (length vs < length phis)%nat →
  for_each (radiationRatio_step self) (seq j (length phis)) (power, bpower)
  = Raise IndexError.
Proof.
  revert vs j power bpower.
  induction phis as [|phi phis IH]; intros vs j power bpower Hphis Hvs Hlen.
  - simpl in Hlen. lia.
  - assert (Hphi : aPhi !! j = Some phi).
    { rewrite <- (Nat.add_0_r j), <- lookup_drop, Hphis. reflexivity. }
    rewrite (drop_S _ _ _ Hphi) in Hphis. injection Hphis as Hphis.
    cbn [length seq for_each].
    destruct vs as [|v vs].
    + apply drop_nil_inv, lookup_ge_None_2 in Hvs.
      rewrite (radiationRatio_step_short _ _ _ _ Hphi Hvs). reflexivity.
    + assert (Hv : aV !! j = Some v).
      { rewrite <- (Nat.add_0_r j), <- lookup_drop, Hvs. reflexivity. }
      rewrite (drop_S _ _ _ Hv) in Hvs. injection Hvs as Hvs.
      rewrite (radiationRatio_step_typed _ _ _ _ _ Hphi Hv). cbn [bind].
      apply (IH vs (S j)); [assumption|assumption|]. simpl in Hlen. lia.
Qed.

Lemma radiationRatio_typed_short :
  (length aV < length aPhi)%nat → radiationRatio self = Raise IndexError.
Proof.
  intros Hlen. unfold radiationRatio. rewrite HaPhi; cbn [bind].
  rewrite (radiationRatio_loop_short aPhi aV 0);
    [reflexivity|reflexivity|reflexivity|exact Hlen].
Qed.
End RadiationLoop.

Section RadiationRatio.
Import BoundarySolution AcousticProperties.
#[local] Open Scope Qc_scope.

Lemma radiationRatio_solution (s : Solver) (bc : value) (k : Qc)
    (aPhi aV : list complex64) :
  (length aPhi ≤ length aV)%nat →
  bind (solution s bc k aPhi aV) radiationRatio
  = true_divide
      (int_mul 2 (accumulate (PyFloat 0) (intensity_terms s k aPhi aV)))
      (accumulate (PyFloat 0) (blocked_terms s aPhi aV)).
Proof.
  intros Hlen.
  destruct (solution_attributes s bc k aPhi aV)
    as (self & -> & Hparent & Hk & HaPhi & HaV).
  cbn [bind]. apply radiationRatio_typed; assumption.
Qed.

Lemma radiationRatio_nonempty (s : Solver) (bc : value) (k : Qc)
    (aPhi aV : list complex64) :
  aPhi ≠ [] → (length aPhi ≤ length aV)%nat →
  bind (solution s bc k aPhi aV) radiationRatio
  = Ok (Np.divide_real (2 * qsum (intensity_terms s k aPhi aV))
          (qsum (blocked_terms s aPhi aV))).
Proof.
  intros Hne Hlen. rewrite radiationRatio_solution by exact Hlen.
  destruct aPhi as [|phi phis]; [contradiction|].
  destruct aV as [|v vs]; [simpl in Hlen; lia|].
  unfold intensity_terms, blocked_terms. cbn [zip_with].
  rewrite !accumulate_cons. cbn [int_mul true_divide real_value].
  rewrite !Qcplus_0_l. reflexivity.
Qed.

Lemma radiationRatio_empty (s : Solver) (bc : value) (k : Qc)
    (aV : list complex64) :
  bind (solution s bc k [] aV) radiationRatio = Raise ZeroDivisionError.
Proof. reflexivity. Qed.

Lemma blocked_terms_zero (s : Solver) (aPhi : list complex64) :
  qsum (blocked_terms s aPhi (replicate (length aPhi) Cplx.zero)) = 0.
Proof.
  induction aPhi as [|phi aPhi IH]; [reflexivity|].
  unfold blocked_terms in *. simpl. fold (qsum
    (zip_with (λ _ v, density s * c s * Cplx.abs_sq v) aPhi
       (replicate (length aPhi) Cplx.zero))).
  rewrite IH. unfold Cplx.abs_sq. simpl. ring.
Qed.

Lemma blocked_terms_nonneg (s : Solver) (aPhi aV : list complex64) :
  0 ≤ density s * c s → 0 ≤ qsum (blocked_terms s aPhi aV).
Proof.
  intros Hrc. revert aV.
  induction aPhi as [|phi aPhi IH]; intros [|v aV]; try apply Qcle_refl.
  unfold blocked_terms. cbn [zip_with qsum foldr].
  apply Qcplus_nonneg_nonneg; [|apply IH].
  apply Qcmult_nonneg_nonneg; [exact Hrc|apply abs_sq_nonneg].
Qed.

Lemma blocked_terms_pos (s : Solver) (aPhi aV : list complex64)
    (v : complex64) :
  0 < density s * c s → length aPhi = length aV →
  v ∈ aV → v ≠ Cplx.zero → 0 < qsum (blocked_terms s aPhi aV).
Proof.
  intros Hrc. revert aV.
  induction aPhi as [|phi aPhi IH]; intros [|v' aV] Hlen Hin Hv;
    try discriminate Hlen.
  - apply elem_of_nil in Hin. contradiction.
  - unfold blocked_terms. cbn [zip_with qsum foldr].
    apply elem_of_cons in Hin as [<-|Hin].
    + apply Qcplus_pos_nonneg.
      * apply Qcmult_pos_pos; [exact Hrc|apply abs_sq_pos, Hv].
      * apply blocked_terms_nonneg, Qclt_le_weak, Hrc.
    + apply Qcplus_nonneg_pos.
      * apply Qcmult_nonneg_nonneg; [apply Qclt_le_weak, Hrc|apply abs_sq_nonneg].
      * apply IH; [simpl in Hlen; lia|exact Hin|exact Hv].
Qed.

Lemma intensity_doubled (k c0 rho : Qc) (phi v : complex64) :
  AcousticIntensity
    (soundPressure k (Cplx.mul (Cplx.of_real 2) phi) c0 rho)
    (Cplx.mul (Cplx.of_real 2) v)
  = 2 * 2 * AcousticIntensity (soundPressure k phi c0 rho) v.
Proof.
  unfold AcousticIntensity, soundPressure. simpl. ring.
Qed.

Lemma abs_sq_doubled (v : complex64) :
  Cplx.abs_sq (Cplx.mul (Cplx.of_real 2) v) = 2 * 2 * Cplx.abs_sq v.
Proof. unfold Cplx.abs_sq. simpl. ring. Qed.

Lemma intensity_terms_doubled (s : Solver) (k : Qc)
    (aPhi aV : list complex64) :
  intensity_terms s k (scale (Cplx.of_real 2) aPhi) (scale (Cplx.of_real 2) aV)
  = Qcmult (2 * 2) <$> intensity_terms s k aPhi aV.
Proof.
  revert aV. induction aPhi as [|phi aPhi IH]; intros [|v aV];
    try reflexivity.
  unfold intensity_terms, scale in *. cbn [fmap list_fmap zip_with].
  rewrite intensity_doubled. f_equal. apply IH.
Qed.

Lemma blocked_terms_doubled (s : Solver) (aPhi aV : list complex64) :
  blocked_terms s (scale (Cplx.of_real 2) aPhi) (scale (Cplx.of_real 2) aV)
  = Qcmult (2 * 2) <$> blocked_terms s aPhi aV.
Proof.
  revert aV. induction aPhi as [|phi aPhi IH]; intros [|v aV];
    try reflexivity.
  unfold blocked_terms, scale in *. cbn [fmap list_fmap zip_with].
  rewrite abs_sq_doubled. f_equal; [ring|apply IH].
Qed.
End RadiationRatio.

(** C3, as the code has it: when every velocity is zero,
    [radiationRatio()] on one element or more raises no error and returns
    a non-finite value (the quotient of zero by zero); only on the empty
    solution, where both sums are still Python floats, does the division
    raise [ZeroDivisionError]. *)
Theorem radiationRatio_zero_velocities (s : Solver) (bc : value) (k : Qc)
    (aPhi : list complex64) :
  bind (solution s bc k aPhi (replicate (length aPhi) Cplx.zero))
       BoundarySolution.radiationRatio
  = match aPhi with
    | [] => Raise ZeroDivisionError
    | _ :: _ => Ok NonFinite
    end.
Proof.
  destruct aPhi as [|phi aPhi]; [apply radiationRatio_empty|].
  rewrite radiationRatio_nonempty;
    [|discriminate|rewrite length_replicate; reflexivity].
  rewrite blocked_terms_zero. reflexivity.
Qed.

(** C3 fails as stated: with one element of velocity zero,
    [radiationRatio()] returns a non-finite value and raises nothing. *)
Lemma radiationRatio_zero_velocity_returns :
  bind (solution (air [1%Qc]) (condition 1) 1%Qc [Cplx.one] [Cplx.zero])
       BoundarySolution.radiationRatio
  = Ok NonFinite ∧
  ¬ fails_with
      (bind (solution (air [1%Qc]) (condition 1) 1%Qc [Cplx.one] [Cplx.zero])
            BoundarySolution.radiationRatio)
      DegenerateDivision.
Proof.
  split; [reflexivity|]. intros [e [He _]]. discriminate He.
Qed.

(** X15: in exact arithmetic, for positive density and speed of sound,
    potentials and velocities of the same length and some velocity
    nonzero, [radiationRatio()] returns a finite value, and doubling both
    [aPhi] and [aV] leaves that value unchanged.  (In float32 [|v|^2]
    underflows to zero for a small [v], before the doubling and not
    after, and the value changes.) *)
Theorem radiationRatio_doubling (s : Solver) (bc : value) (k : Qc)
    (aPhi aV : list complex64) :
  (0 < density s)%Qc → (0 < c s)%Qc → length aPhi = length aV →
  (∃ v, v ∈ aV ∧ v ≠ Cplx.zero) →
  ∃ r : Qc,
    bind (solution s bc k aPhi aV) BoundarySolution.radiationRatio
    = Ok (Finite r) ∧
    bind (solution s bc k (scale (Cplx.of_real 2) aPhi)
            (scale (Cplx.of_real 2) aV))
         BoundarySolution.radiationRatio
    = Ok (Finite r).
Proof.
  intros Hrho Hc Hlen (v & Hin & Hv).
  assert (Hne : aPhi ≠ []).
  { intros ->. destruct aV; [apply elem_of_nil in Hin; exact Hin|discriminate]. }
  assert (HB : (0 < qsum (blocked_terms s aPhi aV))%Qc).
  { apply (blocked_terms_pos s aPhi aV v); try assumption.
    apply Qcmult_pos_pos; assumption. }
  apply Qclt_not_eq in HB.
  assert (HB' : qsum (blocked_terms s aPhi aV) ≠ Q2Qc 0) by congruence.
  exists (2 * qsum (intensity_terms s k aPhi aV)
          / qsum (blocked_terms s aPhi aV))%Qc.
  split.
  - rewrite radiationRatio_nonempty; [|exact Hne|lia].
    rewrite divide_real_nonzero by exact HB'. reflexivity.
  - rewrite radiationRatio_nonempty.
    + rewrite intensity_terms_doubled, blocked_terms_doubled, !qsum_scale.
      rewrite divide_real_nonzero.
      * do 2 f_equal. field. split; [exact HB'|discriminate].
      * intros H. apply Qcmult_integral in H as [H|H]; [|contradiction].
        discriminate H.
    + unfold scale. intros H. apply fmap_nil_inv in H. contradiction.
    + unfold scale. rewrite !length_fmap. lia.
Qed.

Lemma radiationRatio_doubling_witness :
  ∃ r : Qc,
    bind (solution (air [1%Qc; 1%Qc]) (condition 2) 1%Qc
            [Cplx.one; Cplx.i] [Cplx.one; Cplx.one])
         BoundarySolution.radiationRatio
    = Ok (Finite r) ∧
    bind (solution (air [1%Qc; 1%Qc]) (condition 2) 1%Qc
            (scale (Cplx.of_real 2) [Cplx.one; Cplx.i])
            (scale (Cplx.of_real 2) [Cplx.one; Cplx.one]))
         BoundarySolution.radiationRatio
    = Ok (Finite r).
Proof.
  apply radiationRatio_doubling; [reflexivity|reflexivity|reflexivity|].
  exists Cplx.one. split; [apply list_elem_of_here|].
  intros H. apply (f_equal Re) in H. vm_compute in H. discriminate H.
Defined.

(** ** Lengths that disagree, in [radiationRatio] *)

(** X1: [radiationRatio()] indexes [aV] by the positions of [aPhi]: with
    fewer velocities than potentials it raises [IndexError]. *)
Theorem radiationRatio_short_velocities (s : Solver) (bc : value) (k : Qc)
    (aPhi aV : list complex64) :
  (length aV < length aPhi)%nat →
  bind (solution s bc k aPhi aV) BoundarySolution.radiationRatio
  = Raise IndexError.
Proof.
  intros Hlen.
  destruct (solution_attributes s bc k aPhi aV)
    as (self & -> & Hparent & Hk & HaPhi & HaV).
  cbn [bind]. apply (radiationRatio_typed_short s k aPhi aV); assumption.
Qed.

Lemma radiationRatio_short_velocities_witness :
  bind (solution (air [1%Qc; 1%Qc]) (condition 2) 1%Qc
          [Cplx.one; Cplx.i] [Cplx.one])
       BoundarySolution.radiationRatio
  = Raise IndexError.
Proof. apply radiationRatio_short_velocities. simpl. lia. Defined.

(** X2: with at least as many velocities as potentials,
    [radiationRatio()] ignores the velocities past the last potential. *)
Theorem radiationRatio_ignores_trailing (s : Solver) (bc : value) (k : Qc)
    (aPhi aV : list complex64) :
  (length aPhi ≤ length aV)%nat →
  bind (solution s bc k aPhi aV) BoundarySolution.radiationRatio
  = bind (solution s bc k aPhi (take (length aPhi) aV))
         BoundarySolution.radiationRatio.
Proof.
  intros Hlen. rewrite !radiationRatio_solution.
  - unfold intensity_terms, blocked_terms. rewrite !zip_with_take_r.
    reflexivity.
  - rewrite length_take. lia.
  - exact Hlen.
Qed.

Lemma radiationRatio_ignores_trailing_witness :
  bind (solution (air [1%Qc]) (condition 1) 1%Qc [Cplx.one]
          [Cplx.one; Cplx.i])
       BoundarySolution.radiationRatio
  = bind (solution (air [1%Qc]) (condition 1) 1%Qc [Cplx.one]
            (take (length [Cplx.one]) [Cplx.one; Cplx.i]))
         BoundarySolution.radiationRatio.
Proof. apply radiationRatio_ignores_trailing. simpl. lia. Defined.

(** ** The sum [mechanicalImpedance] forms *)

Section ImpedanceSum.
Import BoundarySolution.

Lemma zip3_lookup_inv {A B D : Type} (ps : list A) (bs : list B)
    (vs : list D) (i : nat) (p : A) (b : B) (v : D) :
  zip3 ps bs vs !! i = Some (p, b, v) →
  ps !! i = Some p ∧ bs !! i = Some b ∧ vs !! i = Some v.
Proof.
  revert bs vs i.
  induction ps as [|p' ps IH]; intros [|b' bs] [|v' vs] [|i]; simpl;
    try discriminate.
  - intros [= -> -> ->]. auto.
  - apply IH.
Qed.

Lemma zip3_app {A B D : Type} (ps1 ps2 : list A) (bs1 bs2 : list B)
    (vs1 vs2 : list D) :
  length ps1 = length bs1 → length bs1 = length vs1 →
  zip3 (ps1 ++ ps2) (bs1 ++ bs2) (vs1 ++ vs2)
  = zip3 ps1 bs1 vs1 ++ zip3 ps2 bs2 vs2.
Proof.
  revert bs1 vs1.
  induction ps1 as [|p ps1 IH]; intros [|b bs1] [|v vs1] H1 H2;
    try discriminate H1; try discriminate H2.
  - reflexivity.
  - simpl. f_equal. apply IH; [simpl in H1|simpl in H2]; lia.
Qed.

Lemma zip3_fmap_elements {A : Type} (f : complex64 → A)
    (l : list (complex64 * Qc * complex64)) :
  zip3 (f <$> l.*1.*1) (l.*1.*2) (l.*2)
  = (λ e, (f e.1.1, e.1.2, e.2)) <$> l.
Proof.
  induction l as [|[[phi a] v] l IH]; [reflexivity|].
  simpl. f_equal. exact IH.
Qed.

Lemma add_assoc (x y z : complex64) :
  Cplx.add x (Cplx.add y z) = Cplx.add (Cplx.add x y) z.
Proof. apply complex64_eq; simpl; ring. Qed.

Lemma add_comm (x y : complex64) : Cplx.add x y = Cplx.add y x.
Proof. apply complex64_eq; simpl; ring. Qed.

Lemma np_add_assoc (x y z : np_scalar complex64) :
  Np.add x (Np.add y z) = Np.add (Np.add x y) z.
Proof.
  destruct x, y, z; try reflexivity. simpl. f_equal. apply add_assoc.
Qed.

Lemma np_add_comm (x y : np_scalar complex64) : Np.add x y = Np.add y x.
Proof. destruct x, y; try reflexivity. simpl. f_equal. apply add_comm. Qed.

Lemma np_add_zero_l (x : np_scalar complex64) :
  Np.add (Finite Cplx.zero) x = x.
Proof. destruct x; [|reflexivity]. simpl. f_equal. apply add_zero_l. Qed.

Lemma np_add_zero_r (x : np_scalar complex64) :
  Np.add x (Finite Cplx.zero) = x.
Proof. rewrite np_add_comm. apply np_add_zero_l. Qed.

(** The term one element adds to [Zm]. *)
Lemma step_term (Zm : np_scalar complex64) (e : complex64 * Qc * complex64) :
  mechanicalImpedance_step Zm e
  = Np.add Zm (mechanicalImpedance_step (Finite Cplx.zero) e).
Proof.
  destruct e as [[p a] v]. unfold mechanicalImpedance_step.
  rewrite np_add_zero_l. reflexivity.
Qed.

Lemma fold_step_add (l : list (complex64 * Qc * complex64))
    (Zm : np_scalar complex64) :
  fold_left mechanicalImpedance_step l Zm
  = Np.add Zm (fold_left mechanicalImpedance_step l (Finite Cplx.zero)).
Proof.
  revert Zm. induction l as [|e l IH]; intros Zm.
  - simpl. symmetry. apply np_add_zero_r.
  - cbn [fold_left]. rewrite IH.
    rewrite (IH (mechanicalImpedance_step (Finite Cplx.zero) e)).
    rewrite (step_term Zm e). symmetry. apply np_add_assoc.
Qed.

Lemma fold_step_swap (Zm : np_scalar complex64)
    (x y : complex64 * Qc * complex64) :
  mechanicalImpedance_step (mechanicalImpedance_step Zm x) y
  = mechanicalImpedance_step (mechanicalImpedance_step Zm y) x.
Proof.
  rewrite (step_term (mechanicalImpedance_step Zm x) y).
  rewrite (step_term (mechanicalImpedance_step Zm y) x).
  rewrite (step_term Zm x), (step_term Zm y).
  rewrite <- !np_add_assoc. f_equal. apply np_add_comm.
Qed.

Lemma fold_step_permutation (l l' : list (complex64 * Qc * complex64)) :
  l ≡ₚ l' →
  ∀ Zm, fold_left mechanicalImpedance_step l Zm
        = fold_left mechanicalImpedance_step l' Zm.
Proof.
  induction 1 as [|x l l' _ IH|x y l|l l' l'' _ IH1 _ IH2]; intros Zm.
  - reflexivity.
  - cbn [fold_left]. apply IH.
  - cbn [fold_left]. rewrite fold_step_swap. reflexivity.
  - rewrite IH1. apply IH2.
Qed.

Lemma fold_NonFinite_inv (l : list (complex64 * Qc * complex64))
    (z : complex64) :
  fold_left mechanicalImpedance_step l (Finite z) = NonFinite →
  ∃ i p a, l !! i = Some (p, a, Cplx.zero).
Proof.
  revert z. induction l as [|[[p a] v] l IH]; intros z H.
  - discriminate H.
  - cbn [fold_left] in H. unfold mechanicalImpedance_step at 2 in H.
    destruct (Cplx.is_zero v) eqn:E.
    + apply is_zero_spec in E as ->. exists 0%nat, p, a. reflexivity.
    + unfold Np.divide in H. rewrite E in H. cbn [Np.add] in H.
      destruct (IH _ H) as (i & p' & a' & Hi).
      exists (S i), p', a'. exact Hi.
Qed.

Lemma fold_step_scale (t : Qc) (l : list (complex64 * Qc * complex64))
    (Zm : np_scalar complex64) :
  fold_left mechanicalImpedance_step
    ((λ e, (e.1.1, (t * e.1.2)%Qc, e.2)) <$> l) (np_scale t Zm)
  = np_scale t (fold_left mechanicalImpedance_step l Zm).
Proof.
  revert Zm. induction l as [|[[p a] v] l IH]; intros Zm; [reflexivity|].
  cbn [fmap list_fmap fold_left]. rewrite <- IH. f_equal.
  unfold mechanicalImpedance_step. cbn [fst snd]. unfold Np.divide.
  destruct (Cplx.is_zero v); [destruct Zm; reflexivity|].
  destruct Zm as [z|]; [|reflexivity].
  cbn [np_scale Np.add]. f_equal.
  apply complex64_eq; simpl; ring.
Qed.
End ImpedanceSum.

(** X3: when [aPhi], the element areas or [aV] is empty,
    [mechanicalImpedance()] runs its loop not once: it raises nothing and
    returns [0], whatever the other two hold. *)
Theorem mechanicalImpedance_no_elements (s : Solver) (bc : value) (k : Qc)
    (aPhi aV : list complex64) :
  aPhi = [] ∨ elementArea s = [] ∨ aV = [] →
  bind (solution s bc k aPhi aV) BoundarySolution.mechanicalImpedance
  = Ok (Finite Cplx.zero).
Proof.
  rewrite mechanicalImpedance_solution.
  intros [->|[H| ->]].
  - reflexivity.
  - rewrite H. destruct aPhi; reflexivity.
  - destruct aPhi; [reflexivity|]. destruct (elementArea s); reflexivity.
Qed.

Lemma mechanicalImpedance_no_elements_witness :
  bind (solution (air []) (condition 2) 1%Qc [Cplx.one; Cplx.i]
          [Cplx.zero; Cplx.one])
       BoundarySolution.mechanicalImpedance
  = Ok (Finite Cplx.zero).
Proof. apply mechanicalImpedance_no_elements. right. left. reflexivity. Defined.

(** X4: in exact arithmetic, [mechanicalImpedance()] adds up element by
    element: when two solutions are joined end to end, the first with as
    many areas and velocities as potentials, the impedance of the whole is
    the sum of the impedances of the two.  (In float32 the sum is rounded
    at each step, so the two sides can differ in the last digits.) *)
Theorem mechanicalImpedance_concat (s : Solver) (bc : value) (k : Qc)
    (aPhi1 aPhi2 aV1 aV2 : list complex64) (areas1 areas2 : list Qc) :
  length aPhi1 = length areas1 → length areas1 = length aV1 →
  ∃ Z1 Z2,
    bind (solution (with_areas s areas1) bc k aPhi1 aV1)
         BoundarySolution.mechanicalImpedance = Ok Z1 ∧
    bind (solution (with_areas s areas2) bc k aPhi2 aV2)
         BoundarySolution.mechanicalImpedance = Ok Z2 ∧
    bind (solution (with_areas s (areas1 ++ areas2)) bc k
            (aPhi1 ++ aPhi2) (aV1 ++ aV2))
         BoundarySolution.mechanicalImpedance = Ok (Np.add Z1 Z2).
Proof.
  intros H1 H2. eexists _, _.
  split; [apply mechanicalImpedance_solution|].
  split; [apply mechanicalImpedance_solution|].
  rewrite mechanicalImpedance_solution. f_equal. cbn [elementArea with_areas].
  rewrite fmap_app, zip3_app; [|rewrite length_fmap; exact H1|exact H2].
  rewrite fold_left_app. apply fold_step_add.
Qed.

Lemma mechanicalImpedance_concat_witness :
  ∃ Z1 Z2,
    bind (solution (with_areas (air []) [1%Qc]) (condition 1) 1%Qc
            [Cplx.one] [Cplx.i])
         BoundarySolution.mechanicalImpedance = Ok Z1 ∧
    bind (solution (with_areas (air []) [1%Qc]) (condition 1) 1%Qc
            [Cplx.i] [Cplx.one])
         BoundarySolution.mechanicalImpedance = Ok Z2 ∧
    bind (solution (with_areas (air []) ([1%Qc] ++ [1%Qc])) (condition 1) 1%Qc
            ([Cplx.one] ++ [Cplx.i]) ([Cplx.i] ++ [Cplx.one]))
         BoundarySolution.mechanicalImpedance = Ok (Np.add Z1 Z2).
Proof. apply mechanicalImpedance_concat; reflexivity. Defined.

(** X5: [mechanicalImpedance()] does not depend on the order of the
    elements: reordering potentials, areas and velocities together leaves
    the result unchanged. *)
Theorem mechanicalImpedance_permutation (s : Solver) (bc : value) (k : Qc)
    (l l' : list (complex64 * Qc * complex64)) :
  l ≡ₚ l' →
  bind (solution (with_areas s (l.*1.*2)) bc k (l.*1.*1) (l.*2))
       BoundarySolution.mechanicalImpedance
  = bind (solution (with_areas s (l'.*1.*2)) bc k (l'.*1.*1) (l'.*2))
         BoundarySolution.mechanicalImpedance.
Proof.
  intros Hperm. rewrite !mechanicalImpedance_solution. f_equal.
  cbn [elementArea with_areas c density]. rewrite !zip3_fmap_elements.
  apply fold_step_permutation. rewrite Hperm. reflexivity.
Qed.

Lemma mechanicalImpedance_permutation_witness :
  bind (solution
          (with_areas (air [])
             ([(Cplx.one, 1%Qc, Cplx.i); (Cplx.i, lit 2 1, Cplx.one)].*1.*2))
          (condition 2) 1%Qc
          ([(Cplx.one, 1%Qc, Cplx.i); (Cplx.i, lit 2 1, Cplx.one)].*1.*1)
          ([(Cplx.one, 1%Qc, Cplx.i); (Cplx.i, lit 2 1, Cplx.one)].*2))
       BoundarySolution.mechanicalImpedance
  = bind (solution
            (with_areas (air [])
               ([(Cplx.i, lit 2 1, Cplx.one); (Cplx.one, 1%Qc, Cplx.i)].*1.*2))
            (condition 2) 1%Qc
            ([(Cplx.i, lit 2 1, Cplx.one); (Cplx.one, 1%Qc, Cplx.i)].*1.*1)
            ([(Cplx.i, lit 2 1, Cplx.one); (Cplx.one, 1%Qc, Cplx.i)].*2))
         BoundarySolution.mechanicalImpedance.
Proof. apply mechanicalImpedance_permutation. apply Permutation_swap. Defined.

(** X6: in exact arithmetic, [mechanicalImpedance()] is proportional to
    the element areas: multiplying every area by a real [t] multiplies a
    finite result by [t] and leaves a non-finite result non-finite.  (In
    float32 the products and the sum are rounded, so the two sides can
    differ in the last digits.) *)
Theorem mechanicalImpedance_area_scaling (s : Solver) (bc : value) (k t : Qc)
    (aPhi aV : list complex64) :
  ∃ Zm,
    bind (solution s bc k aPhi aV) BoundarySolution.mechanicalImpedance
    = Ok Zm ∧
    bind (solution (with_areas s (Qcmult t <$> elementArea s)) bc k aPhi aV)
         BoundarySolution.mechanicalImpedance
    = Ok (np_scale t Zm).
Proof.
  eexists. split; [apply mechanicalImpedance_solution|].
  rewrite mechanicalImpedance_solution. f_equal.
  cbn [elementArea with_areas c density].
  rewrite <- fold_step_scale. f_equal.
  - generalize ((λ phi, AcousticProperties.soundPressure k phi (c s)
                          (density s)) <$> aPhi).
    intros ps. generalize (elementArea s). revert aV.
    induction ps as [|p ps IH]; intros [|v vs] [|a areas]; try reflexivity.
    cbn [fmap list_fmap zip3]. f_equal. apply IH.
  - cbn [np_scale]. f_equal. symmetry. apply mul_zero_r.
Qed.

(** ** The sums [radiationRatio] forms *)

Section RadiationSums.
Import BoundarySolution AcousticProperties.
#[local] Open Scope Qc_scope.

Lemma qsum_permutation (xs ys : list Qc) : xs ≡ₚ ys → qsum xs = qsum ys.
Proof.
  induction 1 as [|x xs ys _ IH|x y xs|xs ys zs _ IH1 _ IH2].
  - reflexivity.
  - change (x + qsum xs = x + qsum ys). rewrite IH. reflexivity.
  - change (y + (x + qsum xs) = x + (y + qsum xs)). ring.
  - rewrite IH1. exact IH2.
Qed.

Lemma accumulate_permutation (acc : real_number) (xs ys : list Qc) :
  xs ≡ₚ ys → accumulate acc xs = accumulate acc ys.
Proof.
  intros Hperm. destruct xs as [|x xs], ys as [|y ys].
  - reflexivity.
  - apply Permutation_nil_l in Hperm. discriminate Hperm.
  - apply Permutation_nil_r in Hperm. discriminate Hperm.
  - rewrite !accumulate_cons. do 2 f_equal. apply qsum_permutation, Hperm.
Qed.

Lemma intensity_terms_elements (s : Solver) (k : Qc)
    (l : list (complex64 * complex64)) :
  intensity_terms s k (l.*1) (l.*2)
  = (λ e, AcousticIntensity (soundPressure k e.1 (c s) (density s)) e.2)
      <$> l.
Proof.
  induction l as [|[phi v] l IH]; [reflexivity|].
  unfold intensity_terms in *. cbn [fmap list_fmap zip_with fst snd].
  f_equal. exact IH.
Qed.

Lemma blocked_terms_elements (s : Solver) (l : list (complex64 * complex64)) :
  blocked_terms s (l.*1) (l.*2)
  = (λ e, density s * c s * Cplx.abs_sq e.2) <$> l.
Proof.
  induction l as [|[phi v] l IH]; [reflexivity|].
  unfold blocked_terms in *. cbn [fmap list_fmap zip_with fst snd].
  f_equal. exact IH.
Qed.

Lemma blocked_terms_take (s : Solver) (aPhi aV : list complex64) :
  blocked_terms s aPhi (take (length aPhi) aV) = blocked_terms s aPhi aV.
Proof. unfold blocked_terms. apply zip_with_take_r. Qed.

Lemma divide_real_zero (x : Qc) : Np.divide_real x 0 = NonFinite.
Proof. reflexivity. Qed.

Lemma divide_real_NonFinite (x y : Qc) :
  Np.divide_real x y = NonFinite → y = 0.
Proof.
  unfold Np.divide_real. destruct (Qc_eq_bool y 0) eqn:E; [|discriminate].
  intros _. apply Qc_eq_bool_true, E.
Qed.
End RadiationSums.

(** X7: [radiationRatio()] does not depend on the order of the elements:
    reordering potentials and velocities together leaves the result
    unchanged. *)
Theorem radiationRatio_permutation (s : Solver) (bc : value) (k : Qc)
    (l l' : list (complex64 * complex64)) :
  l ≡ₚ l' →
  bind (solution s bc k (l.*1) (l.*2)) BoundarySolution.radiationRatio
  = bind (solution s bc k (l'.*1) (l'.*2)) BoundarySolution.radiationRatio.
Proof.
  intros Hperm.
  rewrite !radiationRatio_solution by (rewrite !length_fmap; reflexivity).
  rewrite !intensity_terms_elements, !blocked_terms_elements.
  f_equal; [f_equal|]; apply accumulate_permutation; rewrite Hperm;
    reflexivity.
Qed.

Lemma radiationRatio_permutation_witness :
  bind (solution (air []) (condition 2) 1%Qc
          ([(Cplx.one, Cplx.i); (Cplx.i, Cplx.one)].*1)
          ([(Cplx.one, Cplx.i); (Cplx.i, Cplx.one)].*2))
       BoundarySolution.radiationRatio
  = bind (solution (air []) (condition 2) 1%Qc
            ([(Cplx.i, Cplx.one); (Cplx.one, Cplx.i)].*1)
            ([(Cplx.i, Cplx.one); (Cplx.one, Cplx.i)].*2))
         BoundarySolution.radiationRatio.
Proof. apply radiationRatio_permutation. apply Permutation_swap. Defined.

(** X8: with at least one element and at least as many velocities as
    potentials, [radiationRatio()] raises nothing; and when every velocity
    it reads, the first [len(aPhi)] of [aV], is zero, the value it returns
    is not finite, whatever the velocities past them are. *)
Theorem radiationRatio_zero_read_velocities (s : Solver) (bc : value) (k : Qc)
    (aPhi aV : list complex64) :
  aPhi ≠ [] → (length aPhi ≤ length aV)%nat →
  (∃ r, bind (solution s bc k aPhi aV) BoundarySolution.radiationRatio
        = Ok r) ∧
  (Forall (λ v, v = Cplx.zero) (take (length aPhi) aV) →
   bind (solution s bc k aPhi aV) BoundarySolution.radiationRatio
   = Ok NonFinite).
Proof.
  intros Hne Hlen.
  rewrite radiationRatio_nonempty by assumption.
  split; [eexists; reflexivity|].
  intros Hall. f_equal. rewrite <- blocked_terms_take.
  assert (Hrep : take (length aPhi) aV = replicate (length aPhi) Cplx.zero).
  { symmetry. apply replicate_as_Forall_2; [apply length_take_le, Hlen|].
    eapply Forall_impl; [exact Hall|]. intros v ->. reflexivity. }
  rewrite Hrep, blocked_terms_zero. reflexivity.
Qed.

Lemma radiationRatio_zero_read_velocities_witness :
  (∃ r, bind (solution (air []) (condition 1) 1%Qc [Cplx.one]
                [Cplx.zero; Cplx.i])
             BoundarySolution.radiationRatio
        = Ok r) ∧
  bind (solution (air []) (condition 1) 1%Qc [Cplx.one] [Cplx.zero; Cplx.i])
       BoundarySolution.radiationRatio
  = Ok NonFinite.
Proof.
  destruct (radiationRatio_zero_read_velocities (air []) (condition 1) 1%Qc
              [Cplx.one] [Cplx.zero; Cplx.i]) as [Hok Hnan];
    [discriminate|simpl; lia|].
  split; [exact Hok|]. apply Hnan. simpl. repeat constructor.
Defined.

(** X9: the derived quantities never read the stored boundary condition,
    and [pressure()] and [radiationRatio()] never read the element areas:
    changing them changes no result. *)
Theorem derived_quantities_frame (s : Solver) (bc bc' : value) (k : Qc)
    (aPhi aV : list complex64) (areas : list Qc) :
  bind (solution s bc k aPhi aV) BoundarySolution.pressure
  = bind (solution (with_areas s areas) bc' k aPhi aV)
         BoundarySolution.pressure ∧
  bind (solution s bc k aPhi aV) BoundarySolution.radiationRatio
  = bind (solution (with_areas s areas) bc' k aPhi aV)
         BoundarySolution.radiationRatio ∧
  bind (solution s bc k aPhi aV) BoundarySolution.mechanicalImpedance
  = bind (solution s bc' k aPhi aV) BoundarySolution.mechanicalImpedance.
Proof.
  split; [|split].
  - rewrite !pressure_solution. reflexivity.
  - destruct (le_lt_dec (length aPhi) (length aV)) as [Hle|Hlt].
    + rewrite !radiationRatio_solution by exact Hle. reflexivity.
    + destruct (solution_attributes s bc k aPhi aV)
        as (self & -> & Hparent & Hk & HaPhi & HaV).
      destruct (solution_attributes (with_areas s areas) bc' k aPhi aV)
        as (self' & -> & Hparent' & Hk' & HaPhi' & HaV').
      cbn [bind].
      rewrite (radiationRatio_typed_short s k aPhi aV self) by assumption.
      rewrite (radiationRatio_typed_short (with_areas s areas) k aPhi aV self')
        by assumption.
      reflexivity.
  - rewrite !mechanicalImpedance_solution. reflexivity.
Qed.

(** ** Instance attributes *)

(** X10: a constructed [BoundarySolution] holds the five attributes the
    constructor assigns and no other: [parent], [k], [aPhi] and [aV] are
    read back as they were passed, and reading any other name that is not
    a method of the class and does not start with two underscores (the
    names inherited from [object] all do) raises [AttributeError]. *)
Theorem BoundarySolution_attributes (parent boundaryCondition k aPhi aV : value)
    (name : string) :
  bind (BoundarySolution.__init__ parent boundaryCondition k aPhi aV)
       (λ self, getattr self "parent") = Ok parent ∧
  bind (BoundarySolution.__init__ parent boundaryCondition k aPhi aV)
       (λ self, getattr self "k") = Ok k ∧
  bind (BoundarySolution.__init__ parent boundaryCondition k aPhi aV)
       (λ self, getattr self "aPhi") = Ok aPhi ∧
  bind (BoundarySolution.__init__ parent boundaryCondition k aPhi aV)
       (λ self, getattr self "aV") = Ok aV ∧
  (String.prefix "__" name = false →
   name ∉ ["parent"; "boundaryCondidtion"; "k"; "aPhi"; "aV"] →
   name ∉ class_namespace "BoundarySolution" →
   bind (BoundarySolution.__init__ parent boundaryCondition k aPhi aV)
        (λ self, getattr self name)
   = Raise (AttributeError "BoundarySolution" name)).
Proof.
  repeat (split; [reflexivity|]).
  intros _ Hattr Hmethod.
  repeat (apply not_elem_of_cons in Hattr as [? Hattr]).
  unfold BoundarySolution.__init__, new, setattr. cbn [bind].
  unfold getattr. rewrite !lookup_insert_ne by congruence.
  rewrite lookup_empty, bool_decide_eq_false_2 by exact Hmethod.
  reflexivity.
Qed.

Lemma BoundarySolution_attributes_witness :
  bind (BoundarySolution.__init__ (VSolver (air [])) (condition 0)
          (VFloat 1%Qc) (VArray []) (VArray []))
       (λ self, getattr self "size")
  = Raise (AttributeError "BoundarySolution" "size").
Proof.
  apply (BoundarySolution_attributes (VSolver (air [])) (condition 0)
           (VFloat 1%Qc) (VArray []) (VArray []) "size");
    [reflexivity|by_evaluation|by_evaluation].
Defined.

(** ** Reports *)

Section Strings.
Lemma append_assoc (a b d : string) : (a +:+ b) +:+ d = a +:+ (b +:+ d).
Proof.
  induction a as [|ch a IH]; [reflexivity|].
  change (String ch ((a +:+ b) +:+ d) = String ch (a +:+ (b +:+ d))).
  rewrite IH. reflexivity.
Qed.

Lemma append_nil_r (a : string) : a +:+ "" = a.
Proof.
  induction a as [|ch a IH]; [reflexivity|].
  change (String ch (a +:+ "") = String ch a). rewrite IH. reflexivity.
Qed.
End Strings.

Section SolutionReport.
Import BoundarySolution.

Variables (str_float sci frequency : Qc → string) (index : nat → string).
Variables (s : Solver) (k : Qc) (aPhi aV : list complex64) (self : value).
Hypothesis Hparent : attr_solver self "parent" = Ok s.
Hypothesis Hk : attr_float self "k" = Ok k.
Hypothesis HaPhi : attr_array self "aPhi" = Ok aPhi.
Hypothesis HaV : attr_array self "aV" = Ok aV.

Lemma str_step_typed (res : string) (i : nat) (phi v : complex64) :
  aPhi !! i = Some phi → aV !! i = Some v →
  __str__step sci index self res i
  = Ok (res +:+ solution_row sci index s k i phi v).
Proof.
  intros Hphi Hv. unfold __str__step.
  rewrite Hk; cbn [bind]. rewrite HaPhi; cbn [bind].
  unfold Np.getitem. rewrite Hphi; cbn [bind].
  rewrite Hparent; cbn [bind]. rewrite HaV; cbn [bind].
  rewrite Hv; cbn [bind]. reflexivity.
Qed.

Lemma str_step_short (res : string) (i : nat) (phi : complex64) :
  aPhi !! i = Some phi → aV !! i = None →
  __str__step sci index self res i = Raise IndexError.
Proof.
  intros Hphi Hv. unfold __str__step.
  rewrite Hk; cbn [bind]. rewrite HaPhi; cbn [bind].
  unfold Np.getitem. rewrite Hphi; cbn [bind].
  rewrite Hparent; cbn [bind]. rewrite HaV; cbn [bind].
  rewrite Hv. reflexivity.
Qed.

Lemma str_loop (phis vs : list complex64) (j : nat) (res : string) :
  drop j aPhi = phis → drop j aV = vs →
  for_each (__str__step sci index self) (seq j (length phis)) res
  = if decide (length phis ≤ length vs)%nat
    then Ok (res +:+ solution_rows (solution_row sci index s k) j phis vs)
    else Raise IndexError.
Proof.
  revert vs j res.
  induction phis as [|phi phis IH]; intros vs j res Hphis Hvs.
  - rewrite decide_True by (simpl; lia). cbn [length seq for_each].
    destruct vs; cbn [solution_rows]; rewrite append_nil_r; reflexivity.
  - assert (Hphi : aPhi !! j = Some phi).
    { rewrite <- (Nat.add_0_r j), <- lookup_drop, Hphis. reflexivity. }
    rewrite (drop_S _ _ _ Hphi) in Hphis. injection Hphis as Hphis.
    cbn [length seq for_each].
    destruct vs as [|v vs].
    + rewrite decide_False by (simpl; lia).
      apply drop_nil_inv, lookup_ge_None_2 in Hvs.
      rewrite (str_step_short _ _ _ Hphi Hvs). reflexivity.
    + assert (Hv : aV !! j = Some v).
      { rewrite <- (Nat.add_0_r j), <- lookup_drop, Hvs. reflexivity. }
      rewrite (drop_S _ _ _ Hv) in Hvs. injection Hvs as Hvs.
      rewrite (str_step_typed _ _ _ _ Hphi Hv). cbn [bind].
      rewrite (IH vs (S j)) by assumption.
      cbn [length solution_rows].
      destruct (decide (length phis ≤ length vs)%nat).
      * rewrite decide_True by lia. rewrite append_assoc. reflexivity.
      * rewrite decide_False by lia. reflexivity.
Qed.

Lemma str_typed :
  __str__ str_float sci frequency index self
  = if decide (length aPhi ≤ length aV)%nat
    then Ok (solution_header str_float frequency s k
             +:+ solution_rows (solution_row sci index s k) 0 aPhi aV)
    else Raise IndexError.
Proof.
  unfold __str__. rewrite Hparent; cbn [bind]. rewrite Hk; cbn [bind].
  rewrite HaPhi; cbn [bind].
  rewrite (str_loop aPhi aV 0) by reflexivity. reflexivity.
Qed.
End SolutionReport.

(** X11: [str] of a [BoundarySolution] raises [IndexError] when [aV] is
    shorter than [aPhi]; otherwise it returns the four header lines
    followed by one row per element of [aPhi], in order, and for an empty
    [aPhi] the header alone. *)
Theorem BoundarySolution_str (str_float sci frequency : Qc → string)
    (index : nat → string) (s : Solver) (bc : value) (k : Qc)
    (aPhi aV : list complex64) :
  ((length aV < length aPhi)%nat →
   bind (solution s bc k aPhi aV)
        (BoundarySolution.__str__ str_float sci frequency index)
   = Raise IndexError) ∧
  ((length aPhi ≤ length aV)%nat →
   bind (solution s bc k aPhi aV)
        (BoundarySolution.__str__ str_float sci frequency index)
   = Ok (solution_header str_float frequency s k
         +:+ solution_rows (solution_row sci index s k) 0 aPhi aV)) ∧
  bind (solution s bc k [] aV)
       (BoundarySolution.__str__ str_float sci frequency index)
  = Ok (solution_header str_float frequency s k).
Proof.
  split; [|split].
  - intros Hlt.
    destruct (solution_attributes s bc k aPhi aV)
      as (self & -> & Hparent & Hk & HaPhi & HaV).
    cbn [bind].
    rewrite (str_typed str_float sci frequency index s k aPhi aV self)
      by assumption.
    apply decide_False. lia.
  - intros Hle.
    destruct (solution_attributes s bc k aPhi aV)
      as (self & -> & Hparent & Hk & HaPhi & HaV).
    cbn [bind].
    rewrite (str_typed str_float sci frequency index s k aPhi aV self)
      by assumption.
    apply decide_True. exact Hle.
  - reflexivity.
Qed.

Lemma BoundarySolution_str_witness :
  bind (solution (air []) (condition 2) 1%Qc [Cplx.one; Cplx.i] [Cplx.one])
       (BoundarySolution.__str__ (λ _, "x") (λ _, "x") (λ _, "x") (λ _, "n"))
  = Raise IndexError.
Proof.
  apply (proj1 (BoundarySolution_str (λ _, "x") (λ _, "x") (λ _, "x")
                  (λ _, "n") (air []) (condition 2) 1%Qc
                  [Cplx.one; Cplx.i] [Cplx.one])).
  simpl. lia.
Defined.

Section SampleReport.
Import SampleSolution.

Variables (sci : Qc → string) (index : nat → string).
Variables (magnitude phase : complex64 → string).
Variables (s : Solver) (k : Qc) (aPhi : list complex64) (bs self : value).
Hypothesis Hbs : getattr self "boundarySolution" = Ok bs.
Hypothesis Hparent : attr_solver bs "parent" = Ok s.
Hypothesis Hk : attr_float bs "k" = Ok k.
Hypothesis HaPhi : attr_array self "aPhi" = Ok aPhi.

Lemma sample_step_typed (res : string) (i : nat) (phi : complex64) :
  aPhi !! i = Some phi →
  __str__step sci index magnitude phase self res i
  = Ok (res +:+ sample_row sci index magnitude phase s k i phi).
Proof.
  intros Hphi. unfold __str__step.
  rewrite Hbs; cbn [bind]. rewrite Hk; cbn [bind].
  rewrite HaPhi; cbn [bind]. unfold Np.getitem. rewrite Hphi; cbn [bind].
  rewrite Hparent; cbn [bind]. reflexivity.
Qed.

Lemma sample_loop (phis : list complex64) (j : nat) (res : string) :
  drop j aPhi = phis →
  for_each (__str__step sci index magnitude phase self)
    (seq j (length phis)) res
  = Ok (res +:+ sample_rows (sample_row sci index magnitude phase s k) j phis).
Proof.
  revert j res. induction phis as [|phi phis IH]; intros j res Hphis.
  - cbn [length seq for_each sample_rows]. rewrite append_nil_r. reflexivity.
  - assert (Hphi : aPhi !! j = Some phi).
    { rewrite <- (Nat.add_0_r j), <- lookup_drop, Hphis. reflexivity. }
    rewrite (drop_S _ _ _ Hphi) in Hphis. injection Hphis as Hphis.
    cbn [length seq for_each].
    rewrite (sample_step_typed _ _ _ Hphi). cbn [bind].
    rewrite (IH (S j)) by assumption.
    cbn [sample_rows]. rewrite append_assoc. reflexivity.
Qed.

Lemma sample_str_typed :
  __str__ sci index magnitude phase self
  = Ok (sample_header
        +:+ sample_rows (sample_row sci index magnitude phase s k) 0 aPhi).
Proof.
  unfold __str__. rewrite HaPhi; cbn [bind].
  rewrite (sample_loop aPhi 0) by reflexivity. reflexivity.
Qed.
End SampleReport.

(** X12: [str] of a [SampleSolution] built on a [BoundarySolution] never
    fails: it returns the header line followed by one row per sample
    point, in order.  The boundary solution is read only inside the loop:
    with no sample point the header is returned whatever was passed as
    boundary solution, and with a first sample point an object without the
    attribute [k] raises [AttributeError]. *)
Theorem SampleSolution_str (sci : Qc → string) (index : nat → string)
    (magnitude phase : complex64 → string) :
  (∀ (s : Solver) (bc : value) (k : Qc) (aPhiB aV aPhi : list complex64),
     bind (bind (solution s bc k aPhiB aV) (λ bs, sample bs aPhi))
          (SampleSolution.__str__ sci index magnitude phase)
     = Ok (sample_header
           +:+ sample_rows (sample_row sci index magnitude phase s k) 0 aPhi)) ∧
  (∀ boundarySolution : value,
     bind (sample boundarySolution [])
          (SampleSolution.__str__ sci index magnitude phase)
     = Ok sample_header) ∧
  (∀ (n : nat) (phi : complex64) (aPhi : list complex64),
     bind (sample (condition n) (phi :: aPhi))
          (SampleSolution.__str__ sci index magnitude phase)
     = Raise (AttributeError "BoundaryCondition" "k")).
Proof.
  split; [|split].
  - intros s bc k aPhiB aV aPhi.
    destruct (solution_attributes s bc k aPhiB aV)
      as (bs & -> & Hparent & Hk & _ & _).
    cbn [bind].
    apply (sample_str_typed sci index magnitude phase s k aPhi bs);
      try assumption; reflexivity.
  - reflexivity.
  - reflexivity.
Qed.

(** ** Closed forms of the two sums *)

Lemma fold_step_finite (l : list (complex64 * Qc * complex64)) (z : complex64) :
  Forall (λ e, e.2 ≠ Cplx.zero) l →
  fold_left BoundarySolution.mechanicalImpedance_step l (Finite z)
  = Finite
      (Cplx.add z
         (csum ((λ e, Cplx.div (Cplx.mul e.1.1 (Cplx.of_real e.1.2)) e.2)
                  <$> l))).
Proof.
  intros Hall. revert z.
  induction Hall as [|[[p a] v] l Hv _ IH]; intros z.
  - cbn [fold_left fmap list_fmap csum foldr]. f_equal.
    apply complex64_eq; simpl; ring.
  - cbn [fold_left fmap list_fmap csum foldr fst snd].
    unfold BoundarySolution.mechanicalImpedance_step at 2.
    rewrite divide_nonzero by exact Hv. cbn [Np.add].
    rewrite IH. f_equal. symmetry. apply add_assoc.
Qed.

(** X13: in exact arithmetic, when no element in range has velocity
    zero, [mechanicalImpedance()] is the finite sum of [p * a / v] over
    the elements that [pressure()], the element areas and [aV] all cover.
    (In float32 each term and each partial sum is rounded and can
    overflow to Inf or NaN.) *)
Theorem mechanicalImpedance_sum (s : Solver) (bc : value) (k : Qc)
    (aPhi aV : list complex64) :
  (∀ i, (i < length aPhi)%nat → (i < length (elementArea s))%nat →
        aV !! i ≠ Some Cplx.zero) →
  bind (solution s bc k aPhi aV) BoundarySolution.mechanicalImpedance
  = Ok (Finite (csum (impedance_terms s k aPhi aV))).
Proof.
  intros Hnz. rewrite mechanicalImpedance_solution. f_equal.
  rewrite fold_step_finite.
  - f_equal. apply add_zero_l.
  - apply Forall_lookup. intros i [[p a] v] Hi Hv. simpl in Hv. subst v.
    apply zip3_lookup_inv in Hi as (Hp & Ha & Hv).
    apply lookup_lt_Some in Hp. rewrite length_fmap in Hp.
    apply lookup_lt_Some in Ha. exact (Hnz i Hp Ha Hv).
Qed.

Lemma mechanicalImpedance_sum_witness :
  bind (solution (air [1%Qc; 1%Qc]) (condition 2) 1%Qc
          [Cplx.one; Cplx.i] [Cplx.one; Cplx.one])
       BoundarySolution.mechanicalImpedance
  = Ok (Finite
          (csum (impedance_terms (air [1%Qc; 1%Qc]) 1%Qc
                   [Cplx.one; Cplx.i] [Cplx.one; Cplx.one]))).
Proof.
  apply mechanicalImpedance_sum.
  intros [|[|i]] H1 _; [by_evaluation|by_evaluation|simpl in H1; lia].
Defined.

(** X14: in exact arithmetic, with at least one element and at least as
    many velocities as potentials, [radiationRatio()] is numpy's quotient
    of twice the sum of the element intensities by the sum of
    [density * c * |v|^2], both over the elements of [aPhi].  (In float32
    the terms and the sums are rounded, and [|v|^2] underflows to zero for
    a small [v].) *)
Theorem radiationRatio_sum (s : Solver) (bc : value) (k : Qc)
    (aPhi aV : list complex64) :
  aPhi ≠ [] → (length aPhi ≤ length aV)%nat →
  bind (solution s bc k aPhi aV) BoundarySolution.radiationRatio
  = Ok (Np.divide_real (2 * qsum (intensity_terms s k aPhi aV))%Qc
          (qsum (blocked_terms s aPhi aV))) ∧
  length (intensity_terms s k aPhi aV) = length aPhi ∧
  length (blocked_terms s aPhi aV) = length aPhi.
Proof.
  intros Hne Hlen. split; [apply radiationRatio_nonempty; assumption|].
  unfold intensity_terms, blocked_terms.
  rewrite !length_zip_with. lia.
Qed.

Lemma radiationRatio_sum_witness :
  bind (solution (air []) (condition 2) 1%Qc [Cplx.one; Cplx.i]
          [Cplx.one; Cplx.one])
       BoundarySolution.radiationRatio
  = Ok (Np.divide_real
          (2 * qsum (intensity_terms (air []) 1%Qc [Cplx.one; Cplx.i]
                       [Cplx.one; Cplx.one]))%Qc
          (qsum (blocked_terms (air []) [Cplx.one; Cplx.i]
                   [Cplx.one; Cplx.one]))) ∧
  length (intensity_terms (air []) 1%Qc [Cplx.one; Cplx.i]
            [Cplx.one; Cplx.one])
  = length [Cplx.one; Cplx.i] ∧
  length (blocked_terms (air []) [Cplx.one; Cplx.i] [Cplx.one; Cplx.one])
  = length [Cplx.one; Cplx.i].
Proof. apply radiationRatio_sum; [discriminate|simpl; lia]. Defined.
